(** * timelapse: device resolution and the capture session

    A shallow embedding of [timelapse.py]: [resolve_device] as a pure
    function of the selector and the enumerated cameras, and the [start]
    command as a state-passing program that runs against a scripted
    world (what the cameras, the writer, the display and the operator do)
    and leaves a trace of the calls it made. The session runs on
    strings of code points below 256; [resolve_device] is also given on
    strings of any code points, where [str.lower] depends on what stands
    around a code point. *)

From Stdlib Require Import ZArith QArith List String Ascii Bool Lia.
From Stdlib Require Import Sorted.
Import ListNotations.

Local Open Scope Z_scope.
Local Open Scope list_scope.

(** ** Python values the program relies on *)

Module Py.

(** A [str] is modelled here as a sequence of code points below 256;
    [Unicode] below has the strings of any code points, and
    [Latin1Facts] shows that the functions of this module are those of
    [Unicode] on the strings of this one. *)

Definition code (c : ascii) : Z := Z.of_N (N_of_ascii c).

Definition chr (n : Z) : ascii := ascii_of_N (Z.to_N n).

(** [str.lower] on one code point below 256: A-Z and the Latin-1
    capitals (U+00C0..U+00DE except the multiplication sign) move up by
    32. Below 256 the lower-case form of a string is made code point by
    code point; beyond, it is not ([Unicode.lower]). *)
Definition lower_char (c : ascii) : ascii :=
  let n := code c in
  if ((65 <=? n) && (n <=? 90)) || ((192 <=? n) && (n <=? 222) && negb (n =? 215))
  then chr (n + 32) else c.

Fixpoint lower (s : string) : string :=
  match s with
  | EmptyString => EmptyString
  | String c s' => String (lower_char c) (lower s')
  end.

(** [s.startswith(p)]. *)
Fixpoint startswith (p s : string) : bool :=
  match p, s with
  | EmptyString, _ => true
  | String _ _, EmptyString => false
  | String a p', String b s' => Ascii.eqb a b && startswith p' s'
  end.

(** [needle in hay] on strings. *)
Fixpoint str_in (needle hay : string) : bool :=
  startswith needle hay ||
  match hay with
  | EmptyString => false
  | String _ hay' => str_in needle hay'
  end.

(** Truth value of an optional string: [None] and [""] are false. *)
Definition truthy (s : option string) : bool :=
  match s with
  | Some (String _ _) => true
  | _ => false
  end.

(** *** [int(s)] *)

(** What [int] skips around the number: tab, LF, VT, FF, CR, space and, of
    the code points above 127, NEL and the no-break space. *)
Definition is_space (c : ascii) : bool :=
  let n := code c in
  ((9 <=? n) && (n <=? 13)) || (n =? 32) || (n =? 133) || (n =? 160).

Definition is_digit (c : ascii) : bool :=
  let n := code c in (48 <=? n) && (n <=? 57).

Definition digit_value (c : ascii) : Z := code c - 48.

Fixpoint lstrip (s : string) : string :=
  match s with
  | EmptyString => EmptyString
  | String c s' => if is_space c then lstrip s' else s
  end.

Fixpoint rstrip (s : string) : string :=
  match s with
  | EmptyString => EmptyString
  | String c s' =>
      match rstrip s' with
      | EmptyString => if is_space c then EmptyString else String c EmptyString
      | r => String c r
      end
  end.

(** Digits with single underscores between them; [prev] tells whether the
    previous character was a digit, [acc] is the value read so far and
    [count] the number of digits read. *)
Fixpoint parse_digits (s : string) (prev : bool) (acc count : Z) : option (Z * Z) :=
  match s with
  | EmptyString => if prev then Some (acc, count) else None
  | String c s' =>
      if is_digit c then parse_digits s' true (acc * 10 + digit_value c) (count + 1)
      else if Ascii.eqb c "_" && prev then parse_digits s' false acc count
      else None
  end.

(** The default of [sys.get_int_max_str_digits()]. *)
Definition int_max_str_digits : Z := 4300.

(** [int(s)]: [None] stands for [ValueError]. *)
Definition int (s : string) : option Z :=
  let t := rstrip (lstrip s) in
  let '(negative, body) :=
    match t with
    | String "-" r => (true, r)
    | String "+" r => (false, r)
    | _ => (false, t)
    end in
  match parse_digits body false 0 0 with
  | Some (v, count) =>
      if count <=? int_max_str_digits
      then Some (if negative then - v else v)
      else None
  | None => None
  end.

(** *** [str(n)] and the format [06d] *)

Definition digit_char (d : Z) : ascii := chr (48 + d).

Fixpoint dec_digits (fuel : nat) (n : Z) : string :=
  match fuel with
  | O => EmptyString
  | S fuel' =>
      if n <? 10 then String (digit_char n) EmptyString
      else (dec_digits fuel' (n / 10) ++ String (digit_char (n mod 10)) EmptyString)%string
  end.

(** Decimal digits of a non-negative integer; it has at most
    [log2 n + 1] of them. *)
Definition str_nat (n : Z) : string := dec_digits (S (Z.to_nat (Z.log2 n))) n.

Fixpoint zeros (k : nat) : string :=
  match k with
  | O => EmptyString
  | S k' => String "0" (zeros k')
  end.

Definition zfill (width : nat) (s : string) : string :=
  (zeros (width - String.length s) ++ s)%string.

(** [format(n, "06d")]: the sign, then the digits padded with zeros so
    that the whole has at least six characters. *)
Definition format_06d (n : Z) : string :=
  if n <? 0 then String "-" (zfill 5 (str_nat (- n))) else zfill 6 (str_nat n).

(** The fixed-width decimal encoding the spec names: exactly [width]
    digits, most significant first, written here without reference to
    [format_06d], to be compared with it. *)
Fixpoint fixed_width (width : nat) (n : Z) : string :=
  match width with
  | O => EmptyString
  | S width' =>
      (fixed_width width' (n / 10) ++ String (digit_char (n mod 10)) EmptyString)%string
  end.

(** Order of [str]: lexicographic on code points. *)
Definition str_lt (a b : string) : Prop := String.compare a b = Lt.

(** Exceptions the program raises or lets through. *)
Inductive exn : Type :=
| ClickException (message : string)
| ValueError (message : string)
| OverflowError (message : string)
| SystemExit (code : Z)
| OtherError (message : string).

(** A call returns or raises. *)
Inductive result (A : Type) : Type :=
| Return (a : A)
| Raise (e : exn).

Arguments Return {A} a.
Arguments Raise {A} e.

End Py.

(** ** Device Resolver *)

Module Resolver.
Import Py.

(** The fields of [CameraInfo] that the program reads: [index] is the
    backend's device id, [name] may be missing. *)
Record CameraInfo : Type := mkCamera {
  index : Z;
  name : option string
}.

Definition msg_no_cameras : string := "No cameras found.".

Definition msg_device_not_found (device_input : string) : string :=
  ("Device '" ++ device_input
   ++ "' not found. Use 'timelapse devices' to list available cameras.")%string.

Definition msg_no_match (device_input : string) : string :=
  ("No camera found matching '" ++ device_input
   ++ "'. Use 'timelapse devices' to list available cameras.")%string.

(** The test of the name loop:
    [camera.name and device_input.lower() in camera.name.lower()]. *)
Definition name_matches (device_input : string) (camera : CameraInfo) : bool :=
  match name camera with
  | Some n => truthy (Some n) && str_in (lower device_input) (lower n)
  | None => false
  end.

(** [resolve_device], with the result of [enumerate_cameras()] as an
    argument. *)
Definition resolve_device (device_input : string) (cameras : list CameraInfo)
  : result Z :=
  match cameras with
  | [] => Raise (ClickException msg_no_cameras)
  | _ :: _ =>
      match int device_input with
      | Some int_value =>
          match find (fun camera => index camera =? int_value) cameras with
          | Some camera => Return (index camera)
          | None =>
              if (0 <=? int_value) && (int_value <? Z.of_nat (List.length cameras))
              then match nth_error cameras (Z.to_nat int_value) with
                   | Some camera => Return (index camera)
                   | None => Raise (OtherError "IndexError")
                   end
              else Raise (ClickException (msg_device_not_found device_input))
          end
      | None =>
          match find (name_matches device_input) cameras with
          | Some camera => Return (index camera)
          | None => Raise (ClickException (msg_no_match device_input))
          end
      end
  end.

(** The spec's names for the failures of resolution. *)
Definition NoDevicesFound (e : exn) : Prop :=
  e = ClickException msg_no_cameras.

Definition DeviceNotFound (e : exn) : Prop :=
  exists selector,
    e = ClickException (msg_device_not_found selector)
    \/ e = ClickException (msg_no_match selector).

End Resolver.

(** ** Capture session *)

Module Session.
Import Py Resolver.

(** A [float]: the option [--interval] accepts whatever [float()] does. *)
Inductive pyfloat : Type :=
| Finite (q : Q)
| PosInf
| NegInf
| NaN.

Definition negative (x : pyfloat) : Prop :=
  match x with
  | Finite q => (q < 0)%Q
  | NegInf => True
  | PosInf | NaN => False
  end.

Definition Qltb (a b : Q) : bool := negb (Qle_bool b a).

(** [time.sleep(secs)]: the length is turned into nanoseconds, which must
    fit 64 bits, and must not be negative. A [float] is taken for the
    rational it stands for: the rounding of the product at the very limit
    of the range, where the error raised may be the other of the two, is
    not modelled. *)
Definition time_sleep (secs : pyfloat) : result unit :=
  match secs with
  | NaN => Raise (ValueError "Invalid value NaN (not a number)")
  | PosInf | NegInf =>
      Raise (OverflowError "timestamp too large to convert to C _PyTime_t")
  | Finite q =>
      if Qle_bool (9223372036854775808 # 1000000000) q
         || Qltb q (- (9223372036854775808 # 1000000000))
      then Raise (OverflowError "timestamp too large to convert to C _PyTime_t")
      else if Qltb q 0
           then Raise (ValueError "sleep length must be non-negative")
           else Return tt
  end.

(** The name under which frame number [frame_count] is written. *)
Definition frame_name (frame_count : Z) : string :=
  ("frame_" ++ format_06d frame_count ++ ".jpg")%string.

(** The lines the command prints with [click.echo]. *)
Inductive message : Type :=
| StoppingRecording                         (* Stopping recording... *)
| CouldNotOpen (device_index : Z)           (* Error: Could not open device N *)
| RecordingFrom (device_index : Z) (output_path : string)
| CaptureInterval (interval : pyfloat)
| PressCtrlC
| FailedToCapture                           (* Error: Failed to capture frame *)
| RecordingStopped (frame_count : Z)        (* Recording stopped. Captured N frame(s). *)
| ClickError (text : string).               (* Error: text, printed by click itself *)

(** What [generate_table] shows of the session: the frame count and,
    once a frame exists, the latest file name. *)
Definition generate_table (frame_count : Z) : Z * option string :=
  (frame_count, if 0 <? frame_count then Some (frame_name (frame_count - 1)) else None).

(** Calls into the outside world, in the order they are made, each with
    what it returned or raised. *)
Inductive event : Type :=
| Mkdir (output_path : string)
| SetSigint
| VideoCapture (device_index : Z)
| Echo (err : bool) (m : message)
| LiveStart (table : Z * option string)
| LiveStop
| Read (r : result bool)
| Imwrite (output_path filename : string) (r : result bool)
| Update (table : Z * option string) (r : result unit)
| Sleep (secs : pyfloat) (r : result unit)
| Release.

(** Points of one pass through the loop body at which the interrupt
    handler may run: just before (or while) the frame is read, the file is
    written, the display is updated, the program sleeps. *)
Inductive point : Type := AtRead | AtWrite | AtUpdate | AtSleep.

Definition point_eqb (a b : point) : bool :=
  match a, b with
  | AtRead, AtRead | AtWrite, AtWrite | AtUpdate, AtUpdate | AtSleep, AtSleep => true
  | _, _ => false
  end.

(** What the world does during one pass through the loop body. *)
Record pass : Type := mkPass {
  sigint : list point;      (* when the operator interrupts, if at all *)
  read : result bool;       (* [cap.read()]: its [ret], or an error *)
  imwrite : result bool;    (* [cv2.imwrite(...)] *)
  update : result unit      (* [live.update(...)] *)
}.

(** The world one run of [start] meets. *)
Record world : Type := mkWorld {
  cameras : list CameraInfo;    (* [enumerate_cameras()] *)
  now : string;                 (* [datetime.now().strftime("%Y%m%d-%H%M%S")] *)
  is_opened : bool;             (* [cap.isOpened()] *)
  sigint_before_loop : bool;    (* an interrupt after the handler is set and
                                   before the loop is entered *)
  passes : list pass
}.

(** The variables of [start] that change. [stop_recording] is the cell
    [stop_recording['flag']] that the handler and the loop share. *)
Record vars : Type := mkVars {
  stop_recording : bool;
  frame_count : Z
}.

(** How a piece of the program ends: with a value, with an exception, or
    not within the passes the world describes. *)
Inductive ctl (A : Type) : Type :=
| Val (a : A)
| Exc (e : exn)
| Pending.

Arguments Val {A} a.
Arguments Exc {A} e.
Arguments Pending {A}.

(** A piece of the program: from the variables to how it ends, the
    variables then, and the calls it made, in order. *)
Definition M (A : Type) : Type := vars -> ctl A * vars * list event.

(** [t] happened before what [x] records. *)
Definition after {A : Type} (t : list event) (x : ctl A * vars * list event)
  : ctl A * vars * list event :=
  let '(r, v, t') := x in (r, v, t ++ t').

Definition ret {A : Type} (a : A) : M A := fun v => (Val a, v, []).

Definition bind {A B : Type} (m : M A) (k : A -> M B) : M B :=
  fun v =>
    match m v with
    | (Val a, v', t) => after t (k a v')
    | (Exc e, v', t) => (Exc e, v', t)
    | (Pending, v', t) => (Pending, v', t)
    end.

Declare Scope session_scope.
Delimit Scope session_scope with session.
Notation "x <- m ;; k" := (bind m (fun x => k))
  (at level 61, m at next level, right associativity) : session_scope.
Notation "m ;; k" := (bind m (fun _ => k))
  (at level 61, right associativity) : session_scope.
Local Open Scope session_scope.

Definition raise {A : Type} (e : exn) : M A := fun v => (Exc e, v, []).

Definition lift {A : Type} (r : result A) : M A :=
  match r with
  | Return a => ret a
  | Raise e => raise e
  end.

Definition emit (e : event) : M unit := fun v => (Val tt, v, [e]).

(** An outside call: it is recorded with its result, which is then
    returned or raised. *)
Definition call {A : Type} (mk : result A -> event) (r : result A) : M A :=
  emit (mk r) ;; lift r.

Definition echo (err : bool) (m : message) : M unit := emit (Echo err m).

Definition get_frame_count : M Z := fun v => (Val (frame_count v), v, []).

Definition set_frame_count (n : Z) : M unit :=
  fun v => (Val tt, mkVars (stop_recording v) n, []).

Definition set_flag (b : bool) : M unit :=
  fun v => (Val tt, mkVars b (frame_count v), []).

(** [signal_handler]. *)
Definition signal_handler : M unit :=
  echo false StoppingRecording ;;
  set_flag true.

(** The handler runs at [pt] if the operator interrupts there. *)
Definition deliver (pt : point) (p : pass) : M unit :=
  if existsb (point_eqb pt) (sigint p) then signal_handler else ret tt.

(** [try: m finally: fin]. A block that has not ended has not reached
    its [finally] clause. *)
Definition try_finally {A : Type} (m : M A) (fin : M unit) : M A :=
  fun v =>
    match m v with
    | (Pending, v', t) => (Pending, v', t)
    | (r, v', t) =>
        match fin v' with
        | (Val _, v'', t') => (r, v'', t ++ t')
        | (Exc e, v'', t') => (Exc e, v'', t ++ t')
        | (Pending, v'', t') => (Pending, v'', t ++ t')
        end
    end.

(** How the [while] loop was left. *)
Inductive loop_exit : Type :=
| ConditionFalse      (* the test [not stop_recording['flag']] failed *)
| BreakOut.           (* [break] after a failed read *)

(** One pass through the body of the loop; [None] goes on to the next
    test of the loop, [Some BreakOut] is [break]. *)
Definition body (interval : pyfloat) (output_path : string) (p : pass)
  : M (option loop_exit) :=
  deliver AtRead p ;;
  ret_ <- call Read (read p) ;;
  if negb ret_ then
    echo true FailedToCapture ;;
    ret (Some BreakOut)
  else
    deliver AtWrite p ;;
    n <- get_frame_count ;;
    call (Imwrite output_path (frame_name n)) (imwrite p) ;;
    set_frame_count (n + 1) ;;
    deliver AtUpdate p ;;
    n' <- get_frame_count ;;
    call (Update (generate_table n')) (update p) ;;
    deliver AtSleep p ;;
    call (Sleep interval) (time_sleep interval) ;;
    ret None.

(** [while not stop_recording['flag']: body]. *)
Fixpoint while_loop (interval : pyfloat) (output_path : string)
  (ps : list pass) (v : vars) : ctl loop_exit * vars * list event :=
  if stop_recording v then (Val ConditionFalse, v, [])
  else
    match ps with
    | [] => (Pending, v, [])
    | p :: ps' =>
        match body interval output_path p v with
        | (Val None, v', t) => after t (while_loop interval output_path ps' v')
        | (Val (Some how), v', t) => (Val how, v', t)
        | (Exc e, v', t) => (Exc e, v', t)
        | (Pending, v', t) => (Pending, v', t)
        end
    end.

(** The [finally] clause of the loop. *)
Definition finally_clause : M unit :=
  emit Release ;;
  n <- get_frame_count ;;
  echo false (RecordingStopped n).

(** Where the frames go: [output_dir], or a name made of the time. *)
Definition output_path_of (w : world) (output_dir : option string) : string :=
  match output_dir with
  | None => ("capture-" ++ now w)%string
  | Some d => d
  end.

(** The [start] command. Its value here is how the loop was left (the
    Python function returns nothing). *)
Definition start (w : world) (device : string) (interval : pyfloat)
  (output_dir : option string) : M loop_exit :=
  let output_path := output_path_of w output_dir in
  emit (Mkdir output_path) ;;
  device_index <- lift (resolve_device device (cameras w)) ;;
  set_flag false ;;
  emit SetSigint ;;
  (if sigint_before_loop w then signal_handler else ret tt) ;;
  emit (VideoCapture device_index) ;;
  if negb (is_opened w) then
    echo true (CouldNotOpen device_index) ;;
    raise (SystemExit 1)
  else
    echo false (RecordingFrom device_index output_path) ;;
    echo false (CaptureInterval interval) ;;
    echo false PressCtrlC ;;
    set_frame_count 0 ;;
    n0 <- get_frame_count ;;
    emit (LiveStart (generate_table n0)) ;;
    try_finally
      (try_finally
         (while_loop interval output_path (passes w))
         finally_clause)
      (emit LiveStop).

Definition initial : vars := mkVars false 0.

(** What click and the interpreter make of an exception that leaves the
    command: the message of a [ClickException] is printed; the exit status
    is the code of [sys.exit] and 1 for every other exception. *)
Definition click_shows (e : exn) : list event :=
  match e with
  | ClickException m => [Echo true (ClickError m)]
  | _ => []
  end.

Definition exit_code_of (e : exn) : Z :=
  match e with
  | SystemExit c => c
  | _ => 1
  end.

(** The result of a whole run of the command line [timelapse start]; the
    exit status is 0 when the command returns, and [None] while the
    process is still running. *)
Record outcome : Type := mkOutcome {
  ended : ctl loop_exit;
  exit_status : option Z;
  frames : Z;
  calls : list event
}.

Definition run (w : world) (device : string) (interval : pyfloat)
  (output_dir : option string) : outcome :=
  match start w device interval output_dir initial with
  | (Val how, v, t) => mkOutcome (Val how) (Some 0) (frame_count v) t
  | (Exc e, v, t) =>
      mkOutcome (Exc e) (Some (exit_code_of e)) (frame_count v) (t ++ click_shows e)
  | (Pending, v, t) => mkOutcome Pending None (frame_count v) t
  end.

(** The spec's termination reasons, read off the way the loop was left. *)
Inductive reason : Type := OperatorStop | CaptureFailure.

Definition terminationReason (o : outcome) : option reason :=
  match ended o with
  | Val ConditionFalse => Some OperatorStop
  | Val BreakOut => Some CaptureFailure
  | _ => None
  end.

(** Observations on the calls made. *)
Definition is_release (e : event) : bool :=
  match e with Release => true | _ => false end.

Definition is_open (e : event) : bool :=
  match e with VideoCapture _ => true | _ => false end.

Definition is_read_ok (e : event) : bool :=
  match e with Read (Return true) => true | _ => false end.

Definition is_imwrite (e : event) : bool :=
  match e with Imwrite _ _ _ => true | _ => false end.

Definition is_saved (e : event) : bool :=
  match e with Imwrite _ _ (Return _) => true | _ => false end.

Definition is_stop_request (e : event) : bool :=
  match e with Echo _ StoppingRecording => true | _ => false end.

Definition is_count_report (e : event) : bool :=
  match e with Echo _ (RecordingStopped _) => true | _ => false end.

Definition count (f : event -> bool) (l : list event) : nat :=
  List.length (filter f l).

(** The file names handed to [cv2.imwrite], in order. *)
Fixpoint written (l : list event) : list string :=
  match l with
  | [] => []
  | Imwrite _ f _ :: l' => f :: written l'
  | _ :: l' => written l'
  end.

(** The calls made after the first stop request. *)
Fixpoint after_request (l : list event) : list event :=
  match l with
  | [] => []
  | e :: l' => if is_stop_request e then l' else after_request l'
  end.

(** A pass in which the frame is read, the write returns (whatever it
    returns) and the display is updated. *)
Definition completes (p : pass) : Prop :=
  read p = Return true
  /\ (exists ok, imwrite p = Return ok)
  /\ update p = Return tt.

(** A pass during which the operator does not interrupt. *)
Definition quiet (p : pass) : Prop := sigint p = [].

(** A pass in which nobody interrupts, the frame is read, the write
    returns [ok] and the display is updated. *)
Definition goes_well (p : pass) (ok : bool) : Prop :=
  quiet p /\ read p = Return true /\ imwrite p = Return ok
  /\ update p = Return tt.


(** The same pass and the same world, had every write that returned
    reported success. *)
Definition write_succeeds (p : pass) : pass :=
  mkPass (sigint p) (read p)
    (match imwrite p with Return _ => Return true | Raise e => Raise e end)
    (update p).

Definition writes_succeed (w : world) : world :=
  mkWorld (cameras w) (now w) (is_opened w) (sigint_before_loop w)
    (map write_succeeds (passes w)).

(** A call, leaving out what a write returned. *)
Definition forget_written (e : event) : event :=
  match e with
  | Imwrite d f (Return _) => Imwrite d f (Return true)
  | _ => e
  end.

(** The calls of a run before the loop, of one pass in which all goes
    well, and after the loop. *)
Definition preamble (w : world) (device_index : Z) (interval : pyfloat)
  (output_path : string) : list event :=
  [Mkdir output_path; SetSigint]
  ++ (if sigint_before_loop w then [Echo false StoppingRecording] else [])
  ++ [VideoCapture device_index;
      Echo false (RecordingFrom device_index output_path);
      Echo false (CaptureInterval interval);
      Echo false PressCtrlC;
      LiveStart (generate_table 0)].

Definition pass_calls (interval : pyfloat) (output_path : string) (n : Z)
  (ok : bool) : list event :=
  [Read (Return true);
   Imwrite output_path (frame_name n) (Return ok);
   Update (generate_table (n + 1)) (Return tt);
   Sleep interval (Return tt)].

Fixpoint passes_calls (interval : pyfloat) (output_path : string) (n : Z)
  (oks : list bool) : list event :=
  match oks with
  | [] => []
  | ok :: oks' =>
      pass_calls interval output_path n ok
      ++ passes_calls interval output_path (n + 1) oks'
  end.

Definition epilogue (n : Z) : list event :=
  [Release; Echo false (RecordingStopped n); LiveStop].

End Session.

(** ** Worlds used in the examples *)

Module Scenario.
Import Py Resolver Session.
Local Open Scope string_scope.

(** The catalog of the spec's scenario. *)
Definition catalog : list CameraInfo :=
  [ mkCamera 1200 (Some "Anker PowerConf C200");
    mkCamera 55 (Some "FaceTime HD") ].

(** A catalog in which a device id is also a position of another entry,
    and in which one name is missing and one empty. *)
Definition crossed : list CameraInfo :=
  [ mkCamera 1 None; mkCamera 0 (Some ""); mkCamera 7 (Some "USB Camera");
    mkCamera 8 (Some "usb camera two") ].

(** A pass in which everything works, and passes in which the read
    fails, the write reports failure, the operator interrupts. *)
Definition fine : pass := mkPass [] (Return true) (Return true) (Return tt).

Definition read_fails : pass := mkPass [] (Return false) (Return true) (Return tt).

Definition write_fails : pass := mkPass [] (Return true) (Return false) (Return tt).

(** A pass in which the write raises, as [cv2.imwrite] does with
    [cv2.error]. *)
Definition write_raises : pass :=
  mkPass [] (Return true) (Raise (OtherError "cv2.error")) (Return tt).

Definition interrupted : pass :=
  mkPass [AtRead] (Return true) (Return true) (Return tt).

Definition interrupted_asleep : pass :=
  mkPass [AtSleep] (Return true) (Return true) (Return tt).

(** A device that fails on the fifth read. *)
Definition fails_on_fifth : world :=
  mkWorld catalog "20250101-120000" true false
    [fine; fine; fine; fine; read_fails; fine].

(** A device that keeps working for as long as the world is described. *)
Definition working (ps : list pass) : world :=
  mkWorld catalog "20250101-120000" true false ps.

Definition no_cameras : world :=
  mkWorld [] "20250101-120000" true false [fine].

Definition cannot_open : world :=
  mkWorld catalog "20250101-120000" false false [fine].

Definition interrupted_at_once : world :=
  mkWorld catalog "20250101-120000" true true [fine; fine].

End Scenario.

(** ** More of the program: texts, the listing, the display *)

Module Text.
Import Py.

(** [str(n)] for an integer. *)
Definition str_int (n : Z) : string :=
  if n <? 0 then String "-" (str_nat (- n)) else str_nat n.

(** A value of type [str] or [None] inside an f-string. *)
Definition str_opt (s : option string) : string :=
  match s with
  | Some x => x
  | None => "None"
  end.

(** [format(n, "02d")]. *)
Definition format_02d (n : Z) : string :=
  if n <? 0 then String "-" (zfill 1 (str_nat (- n))) else zfill 2 (str_nat n).

(** Every code point of a string passes a test. *)
Fixpoint all_chars (f : ascii -> bool) (s : string) : bool :=
  match s with
  | EmptyString => true
  | String c s' => f c && all_chars f s'
  end.

(** [k] consecutive integers from [n] on. *)
Fixpoint numbers (n : Z) (k : nat) : list Z :=
  match k with
  | O => []
  | S k' => n :: numbers (n + 1) k'
  end.

Definition newline : string := String (chr 10) EmptyString.

(** A digit, which is no space. *)
Definition plain (c : ascii) : bool := is_digit c && negb (is_space c).

End Text.

(** The [devices] command. *)

Module Listing.
Import Py Resolver Text.

(** The rows of the listing: [enumerate(cameras)], from position [idx]. *)
Fixpoint rows (idx : Z) (cameras : list CameraInfo) : list string :=
  match cameras with
  | [] => []
  | camera_info :: rest =>
      ("  [" ++ str_int idx ++ "] " ++ str_int (index camera_info) ++ ": "
       ++ str_opt (name camera_info))%string
      :: rows (idx + 1) rest
  end.

(** [devices], with the result of [enumerate_cameras()] as an argument:
    the lines echoed, in order, and the exit status. *)
Definition devices (cameras : list CameraInfo) : list string * Z :=
  let scanning := "Scanning for available cameras..."%string in
  match cameras with
  | [] => ([scanning; "No cameras found."%string], 1)
  | _ :: _ =>
      ([scanning;
        (newline ++ "Found " ++ str_int (Z.of_nat (List.length cameras))
         ++ " device(s):")%string]
       ++ rows 0 cameras, 0)
  end.

End Listing.

(** The duration shown by [generate_table]. *)

Module Display.
Import Py Text.

(** [divmod] on integers, with a positive divisor. *)
Definition divmod (a b : Z) : Z * Z := (a / b, a mod b).

(** The text of the row [Duration], from
    [int(duration.total_seconds())]. *)
Definition duration_str (total_seconds : Z) : string :=
  let '(hours, remainder) := divmod total_seconds 3600 in
  let '(minutes, seconds) := divmod remainder 60 in
  (format_02d hours ++ ":" ++ format_02d minutes ++ ":" ++ format_02d seconds)%string.

End Display.

(** Observations used to state what runs do. *)

Module Observe.
Import Py Resolver Session.

(** The calls, without the lines printed by the interrupt handler. *)
Definition drop_requests (l : list event) : list event :=
  filter (fun e => negb (is_stop_request e)) l.

(** The same world, with other interrupts, pass by pass. *)
Definition same_but_interrupts (p p' : pass) : Prop :=
  read p = read p' /\ imwrite p = imwrite p' /\ update p = update p'
  /\ (sigint p = [] <-> sigint p' = []).

(** The same world, but for what the writes do. *)
Definition same_but_writes (w w' : world) : Prop :=
  cameras w = cameras w' /\ now w = now w' /\ is_opened w = is_opened w'
  /\ sigint_before_loop w = sigint_before_loop w'
  /\ Forall2 (fun p p' => sigint p = sigint p' /\ read p = read p'
                          /\ update p = update p')
       (passes w) (passes w').


(** A call that names a directory names [path]. *)
Definition in_directory (path : string) (e : event) : Prop :=
  match e with
  | Mkdir d => d = path
  | Imwrite d _ _ => d = path
  | Echo _ (RecordingFrom _ d) => d = path
  | _ => True
  end.

(** An interval that [time.sleep] takes. *)
Definition sleepable (interval : pyfloat) : Prop :=
  match interval with
  | Finite q => (0 <= q)%Q /\ (q < 9223372036854775808 # 1000000000)%Q
  | _ => False
  end.

End Observe.

(** ** Strings of any code points

    [Py] keeps to the code points below 256. CPython's [str.lower] and
    [int] are defined on every [str]; they are modelled here after
    [unicodeobject.c] ([do_lower], [lower_ucs4], [handle_capital_sigma],
    [_PyUnicode_TransformDecimalAndSpaceToASCII]) and [longobject.c]
    ([PyLong_FromUnicodeObject]), over the rows of the Unicode Character
    Database that these functions read. *)

Module Unicode.

(** A [str]: its code points. *)
Definition str : Type := list Z.

(** The [str] of a string of [Py]. *)
Fixpoint codes (s : string) : str :=
  match s with
  | EmptyString => []
  | String c s' => Py.code c :: codes s'
  end.

(** The bytes of an ASCII [str]. *)
Fixpoint text (s : str) : string :=
  match s with
  | [] => EmptyString
  | ch :: s' => String (Py.chr ch) (text s')
  end.

(** What the functions below look up for a code point. *)
Record tables : Type := mkTables {
  to_lower_full : Z -> list Z;        (* [_PyUnicode_ToLowerFull] *)
  is_cased : Z -> bool;               (* [_PyUnicode_IsCased] *)
  is_case_ignorable : Z -> bool;      (* [_PyUnicode_IsCaseIgnorable] *)
  is_whitespace : Z -> bool;          (* [_PyUnicode_IsWhitespace] *)
  to_decimal_digit : Z -> option Z    (* [_PyUnicode_ToDecimalDigit] *)
}.

(** *** [str.lower] *)

(** The first code point of [s] that is not case-ignorable. *)
Fixpoint skip_ignorable (u : tables) (s : str) : option Z :=
  match s with
  | [] => None
  | c :: s' => if is_case_ignorable u c then skip_ignorable u s' else Some c
  end.

(** [handle_capital_sigma]: a capital sigma is written as the final
    sigma U+03C2 when a cased code point stands before it and none after
    it, case-ignorable code points apart, and as U+03C3 otherwise.
    [before] is what precedes it, nearest code point first. *)
Definition handle_capital_sigma (u : tables) (before after : str) : Z :=
  let final_sigma :=
    match skip_ignorable u before with
    | Some c => is_cased u c
    | None => false
    end
    && match skip_ignorable u after with
       | Some c => negb (is_cased u c)
       | None => true
       end in
  if final_sigma then 962 else 963.

(** [lower_ucs4]: what one code point becomes where it stands. *)
Definition lower_ucs4 (u : tables) (before : str) (c : Z) (after : str)
  : list Z :=
  if c =? 931 then [handle_capital_sigma u before after]
  else to_lower_full u c.

(** [do_lower], from the code points [before] on (nearest first). *)
Fixpoint do_lower (u : tables) (before s : str) : str :=
  match s with
  | [] => []
  | c :: s' => lower_ucs4 u before c s' ++ do_lower u (c :: before) s'
  end.

(** [s.lower()]. *)
Definition lower (u : tables) (s : str) : str := do_lower u [] s.

(** [s.startswith(p)] and [needle in hay]. *)
Fixpoint startswith (p s : str) : bool :=
  match p, s with
  | [], _ => true
  | _ :: _, [] => false
  | a :: p', b :: s' => (a =? b) && startswith p' s'
  end.

Fixpoint str_in (needle hay : str) : bool :=
  startswith needle hay ||
  match hay with
  | [] => false
  | _ :: hay' => str_in needle hay'
  end.

(** Truth value of an optional [str]. *)
Definition truthy (s : option str) : bool :=
  match s with
  | Some (_ :: _) => true
  | _ => false
  end.

(** *** [int(s)] *)

Definition is_ascii (s : str) : bool := forallb (fun ch => ch <? 128) s.

(** [Py_UNICODE_ISSPACE]: a table of its own for ASCII. *)
Definition is_space (u : tables) (ch : Z) : bool :=
  if ch <? 128
  then ((9 <=? ch) && (ch <=? 13)) || ((28 <=? ch) && (ch <=? 32))
  else is_whitespace u ch.

(** [_PyUnicode_TransformDecimalAndSpaceToASCII] on a [str] that is not
    ASCII: spaces become the space, decimal digits their ASCII digit, and
    the text ends with a question mark at the first code point from 127
    on that is neither. *)
Fixpoint transform (u : tables) (s : str) : string :=
  match s with
  | [] => EmptyString
  | ch :: s' =>
      if ch <? 127 then String (Py.chr ch) (transform u s')
      else if is_space u ch then String " " (transform u s')
      else match to_decimal_digit u ch with
           | Some d => String (Py.digit_char d) (transform u s')
           | None => String "?" EmptyString
           end
  end.

(** [int(s)]: the ASCII text that the transformation leaves is read as
    [PyLong_FromString] reads it, which is what [Py.int] does on ASCII
    text. *)
Definition int (u : tables) (s : str) : option Z :=
  Py.int (if is_ascii s then text s else transform u s).

(** *** Where [Py] stands *)

(** The rows of the code points below 256: capitals move up by 32 and
    nothing else changes; the spaces are those of ASCII, NEL and the
    no-break space; the decimal digits are those of ASCII. *)
Definition latin1_rows (u : tables) : Prop :=
  forall c, 0 <= c < 256 ->
    to_lower_full u c
    = [if ((65 <=? c) && (c <=? 90))
          || ((192 <=? c) && (c <=? 222) && negb (c =? 215))
       then c + 32 else c]
    /\ is_whitespace u c
       = (((9 <=? c) && (c <=? 13)) || ((28 <=? c) && (c <=? 32))
          || (c =? 133) || (c =? 160))
    /\ to_decimal_digit u c
       = (if (48 <=? c) && (c <=? 57) then Some (c - 48) else None).

(** Lower-casing works code point by code point on [s]: no capital
    sigma, and no code point that becomes several. *)
Definition simple_case (u : tables) (s : str) : Prop :=
  Forall (fun c => c <> 931 /\ exists d, to_lower_full u c = [d]) s.

End Unicode.

(** The Device Resolver on such strings. *)

Module UnicodeResolver.
Import Unicode.

Record CameraInfo : Type := mkCamera {
  index : Z;
  name : option str
}.

Inductive exn : Type :=
| ClickException (message : str)
| OtherError (message : str).

Inductive result (A : Type) : Type :=
| Return (a : A)
| Raise (e : exn).

Arguments Return {A} a.
Arguments Raise {A} e.

Definition msg_no_cameras : str := codes "No cameras found.".

Definition msg_device_not_found (device_input : str) : str :=
  codes "Device '" ++ device_input
  ++ codes "' not found. Use 'timelapse devices' to list available cameras.".

Definition msg_no_match (device_input : str) : str :=
  codes "No camera found matching '" ++ device_input
  ++ codes "'. Use 'timelapse devices' to list available cameras.".

(** [camera.name and device_input.lower() in camera.name.lower()]. *)
Definition name_matches (u : tables) (device_input : str) (camera : CameraInfo)
  : bool :=
  match name camera with
  | Some n => truthy (Some n) && str_in (lower u device_input) (lower u n)
  | None => false
  end.

(** [resolve_device], with the result of [enumerate_cameras()] as an
    argument. *)
Definition resolve_device (u : tables) (device_input : str)
  (cameras : list CameraInfo) : result Z :=
  match cameras with
  | [] => Raise (ClickException msg_no_cameras)
  | _ :: _ =>
      match int u device_input with
      | Some int_value =>
          match find (fun camera => index camera =? int_value) cameras with
          | Some camera => Return (index camera)
          | None =>
              if (0 <=? int_value) && (int_value <? Z.of_nat (List.length cameras))
              then match nth_error cameras (Z.to_nat int_value) with
                   | Some camera => Return (index camera)
                   | None => Raise (OtherError (codes "IndexError"))
                   end
              else Raise (ClickException (msg_device_not_found device_input))
          end
      | None =>
          match find (name_matches u device_input) cameras with
          | Some camera => Return (index camera)
          | None => Raise (ClickException (msg_no_match device_input))
          end
      end
  end.

Definition DeviceNotFound (e : exn) : Prop :=
  exists selector,
    e = ClickException (msg_device_not_found selector)
    \/ e = ClickException (msg_no_match selector).

(** The match as the spec words it: [selector] occurs in the name as a
    substring, up to case. *)
Definition same_ignoring_case (u : tables) (a b : str) : Prop :=
  lower u a = lower u b.

Definition occurs_ignoring_case (u : tables) (selector text : str) : Prop :=
  exists before middle after,
    text = before ++ middle ++ after
    /\ same_ignoring_case u middle selector.

Definition matches_by_name (u : tables) (selector : str) (camera : CameraInfo)
  : Prop :=
  exists n, name camera = Some n /\ n <> []
            /\ occurs_ignoring_case u selector n.


(** A descriptor and a result of [Resolver], on these strings. *)
Definition widen (camera : Resolver.CameraInfo) : CameraInfo :=
  mkCamera (Resolver.index camera) (option_map codes (Resolver.name camera)).

Definition widen_result (r : Py.result Z) : result Z :=
  match r with
  | Py.Return d => Return d
  | Py.Raise (Py.ClickException m) => Raise (ClickException (codes m))
  | Py.Raise (Py.ValueError m) | Py.Raise (Py.OverflowError m)
  | Py.Raise (Py.OtherError m) => Raise (OtherError (codes m))
  | Py.Raise (Py.SystemExit _) => Raise (OtherError [])
  end.

End UnicodeResolver.

(** The rows of the Unicode Character Database, version 14.0, for the
    code points below U+0400: Latin, the phonetic and modifier letters,
    the combining marks, Greek and Coptic. A code point from U+0400 on
    has no row here (no case, no mapping, no space, no digit). *)

Module UnicodeData.
Import Unicode.

(** Lowercase mappings: from [first] to [last], every [step]-th code
    point moves by [delta]. *)
Definition lower_rows : list (Z * Z * Z * Z) :=
  [ (65, 90, 1, 32); (192, 214, 1, 32); (216, 222, 1, 32); (256, 302, 2, 1);
    (306, 310, 2, 1); (313, 327, 2, 1); (330, 374, 2, 1); (376, 376, 1, -121);
    (377, 381, 2, 1); (385, 385, 1, 210); (386, 388, 2, 1); (390, 390, 1, 206);
    (391, 391, 1, 1); (393, 394, 1, 205); (395, 395, 1, 1); (398, 398, 1, 79);
    (399, 399, 1, 202); (400, 400, 1, 203); (401, 401, 1, 1); (403, 403, 1, 205);
    (404, 404, 1, 207); (406, 406, 1, 211); (407, 407, 1, 209); (408, 408, 1, 1);
    (412, 412, 1, 211); (413, 413, 1, 213); (415, 415, 1, 214); (416, 420, 2, 1);
    (422, 422, 1, 218); (423, 423, 1, 1); (425, 425, 1, 218); (428, 428, 1, 1);
    (430, 430, 1, 218); (431, 431, 1, 1); (433, 434, 1, 217); (435, 437, 2, 1);
    (439, 439, 1, 219); (440, 440, 1, 1); (444, 444, 1, 1); (452, 452, 1, 2);
    (453, 453, 1, 1); (455, 455, 1, 2); (456, 456, 1, 1); (458, 458, 1, 2);
    (459, 475, 2, 1); (478, 494, 2, 1); (497, 497, 1, 2); (498, 500, 2, 1);
    (502, 502, 1, -97); (503, 503, 1, -56); (504, 542, 2, 1); (544, 544, 1, -130);
    (546, 562, 2, 1); (570, 570, 1, 10795); (571, 571, 1, 1); (573, 573, 1, -163);
    (574, 574, 1, 10792); (577, 577, 1, 1); (579, 579, 1, -195); (580, 580, 1, 69);
    (581, 581, 1, 71); (582, 590, 2, 1); (880, 882, 2, 1); (886, 886, 1, 1);
    (895, 895, 1, 116); (902, 902, 1, 38); (904, 906, 1, 37); (908, 908, 1, 64);
    (910, 911, 1, 63); (913, 929, 1, 32); (931, 939, 1, 32); (975, 975, 1, 8);
    (984, 1006, 2, 1); (1012, 1012, 1, -60); (1015, 1015, 1, 1); (1017, 1017, 1, -7);
    (1018, 1018, 1, 1); (1021, 1023, 1, -130) ].

(** The one code point below U+0400 that becomes two: the capital I
    with a dot above, an i and a combining dot. *)
Definition special_lower (c : Z) : option (list Z) :=
  if c =? 304 then Some [105; 775] else None.

(** Ranges of the cased, the case-ignorable and the white-space code
    points. *)
Definition cased_ranges : list (Z * Z) :=
  [ (65, 90); (97, 122); (170, 170); (181, 181); (186, 186); (192, 214);
    (216, 246); (248, 442); (444, 447); (452, 659); (661, 696); (704, 705);
    (736, 740); (837, 837); (880, 883); (886, 887); (890, 893); (895, 895);
    (902, 902); (904, 906); (908, 908); (910, 929); (931, 1013); (1015, 1023) ].

Definition case_ignorable_ranges : list (Z * Z) :=
  [ (39, 39); (46, 46); (58, 58); (94, 94); (96, 96); (168, 168);
    (173, 173); (175, 175); (180, 180); (183, 184); (688, 879); (884, 885);
    (890, 890); (900, 901); (903, 903) ].

Definition whitespace_ranges : list (Z * Z) :=
  [ (9, 13); (28, 32); (133, 133); (160, 160) ].

Definition in_ranges (ranges : list (Z * Z)) (c : Z) : bool :=
  existsb (fun r => (fst r <=? c) && (c <=? snd r)) ranges.

Definition in_row (c : Z) (row : Z * Z * Z * Z) : bool :=
  let '(first, last, step, _) := row in
  (first <=? c) && (c <=? last) && ((c - first) mod step =? 0).

Definition ucd : tables :=
  mkTables
    (fun c =>
       match special_lower c with
       | Some l => l
       | None =>
           match find (in_row c) lower_rows with
           | Some (_, _, _, delta) => [c + delta]
           | None => [c]
           end
       end)
    (in_ranges cased_ranges)
    (in_ranges case_ignorable_ranges)
    (in_ranges whitespace_ranges)
    (fun c => if (48 <=? c) && (c <=? 57) then Some (c - 48) else None).

End UnicodeData.

(** Catalogs used in the examples on such strings. *)

Module UnicodeScenario.
Import Unicode UnicodeResolver.

(** The catalog of the spec's scenario. *)
Definition catalog : list CameraInfo := map widen Scenario.catalog.

(** The catalog in which one name is missing and one empty. *)
Definition crossed : list CameraInfo := map widen Scenario.crossed.


Definition dotted_i : CameraInfo := mkCamera 3 (Some [304]).

End UnicodeScenario.

(** ** Facts about strings *)

Module PyFacts.
Import Py.
Local Open Scope string_scope.

Lemma append_assoc (a b c : string) : (a ++ b) ++ c = a ++ (b ++ c).
Proof. induction a as [|x a IH]; simpl; [reflexivity | now rewrite IH]. Qed.

Lemma append_empty_r (a : string) : a ++ "" = a.
Proof. induction a as [|x a IH]; simpl; [reflexivity | now rewrite IH]. Qed.

Lemma length_append (a b : string) :
  String.length (a ++ b) = (String.length a + String.length b)%nat.
Proof. induction a as [|x a IH]; simpl; [reflexivity | now rewrite IH]. Qed.

Lemma startswith_spec (p s : string) :
  startswith p s = true <-> exists t, s = p ++ t.
Proof.
  revert s; induction p as [|a p IH]; intros s; simpl.
  - split; [intros _; now exists s | reflexivity].
  - destruct s as [|b s].
    + split; [discriminate | intros [t Ht]; discriminate].
    + rewrite andb_true_iff, Ascii.eqb_eq, IH. split.
      * intros [-> [t ->]]. now exists t.
      * intros [t Ht]. injection Ht as -> ->. split; [reflexivity | now exists t].
Qed.

(** [in] on strings is the substring relation. *)
Lemma str_in_spec (needle hay : string) :
  str_in needle hay = true <-> exists a b, hay = a ++ needle ++ b.
Proof.
  induction hay as [|c hay IH].
  - simpl. rewrite orb_false_r, startswith_spec. split.
    + intros [t Ht]. now exists "", t.
    + intros [a [b H]]. destruct a; simpl in H.
      * now exists b.
      * discriminate.
  - change (str_in needle (String c hay))
      with (startswith needle (String c hay) || str_in needle hay)%bool.
    rewrite orb_true_iff, startswith_spec, IH. split.
    + intros [[t Ht] | [a [b H]]].
      * now exists "", t.
      * exists (String c a), b. simpl. now rewrite H.
    + intros [a [b H]]. destruct a as [|x a]; simpl in H.
      * left. now exists b.
      * right. injection H as _ H. now exists a, b.
Qed.

End PyFacts.

(** ** The Device Resolver *)

Module ResolverFacts.
Import Py Resolver PyFacts.


Lemma find_none_iff {A : Type} (f : A -> bool) (l : list A) :
  find f l = None <-> forall y, In y l -> f y = false.
Proof.
  split; [apply find_none|].
  induction l as [|a l IH]; simpl; intros H; [reflexivity|].
  rewrite (H a (or_introl eq_refl)). apply IH. intros y Hy. apply H. now right.
Qed.

Lemma device_not_found_mentions (selector : string) :
  str_in selector (msg_device_not_found selector) = true.
Proof. apply str_in_spec. now eexists _, _. Qed.

Lemma no_match_mentions (selector : string) :
  str_in selector (msg_no_match selector) = true.
Proof. apply str_in_spec. now eexists _, _. Qed.

(** ** C1 *)

(** C1. For a non-empty catalog and a selector that [int] reads as [n]:
    if some descriptor has device id [n], resolution returns [n], whether
    or not [n] is also a position in the catalog; otherwise, if
    [0 <= n < len(catalog)], it returns the device id of the descriptor at
    position [n]; otherwise it fails with DeviceNotFound, and the message
    contains the selector as it was given. *)
Theorem resolve_integer_selector (selector : string)
  (catalog : list CameraInfo) (n : Z) :
  catalog <> [] ->
  int selector = Some n ->
  ((exists c, In c catalog /\ index c = n) ->
     resolve_device selector catalog = Return n)
  /\ ((forall c, In c catalog -> index c <> n) ->
      0 <= n < Z.of_nat (List.length catalog) ->
      exists c, nth_error catalog (Z.to_nat n) = Some c
                /\ resolve_device selector catalog = Return (index c))
  /\ ((forall c, In c catalog -> index c <> n) ->
      ~ (0 <= n < Z.of_nat (List.length catalog)) ->
      resolve_device selector catalog
        = Raise (ClickException (msg_device_not_found selector))
      /\ DeviceNotFound (ClickException (msg_device_not_found selector))
      /\ str_in selector (msg_device_not_found selector) = true).
Proof.
  intros Hne Hint. unfold resolve_device.
  destruct catalog as [|c0 rest]; [now elim Hne|]. rewrite Hint.
  set (catalog := c0 :: rest). split; [|split].
  - intros [c [Hin Hc]].
    destruct (find (fun camera => index camera =? n) catalog) as [c'|] eqn:F.
    + apply find_some in F. destruct F as [_ F].
      apply Z.eqb_eq in F. now rewrite F.
    + apply (find_none _ _ F) in Hin. apply Z.eqb_neq in Hin. now elim Hin.
  - intros Hno Hrange.
    assert (F : find (fun camera => index camera =? n) catalog = None).
    { apply find_none_iff. intros y Hy. apply Z.eqb_neq. now apply Hno. }
    rewrite F.
    replace ((0 <=? n) && (n <? Z.of_nat (List.length catalog)))%bool with true
      by (symmetry; apply andb_true_iff; split;
          [apply Z.leb_le | apply Z.ltb_lt]; lia).
    destruct (nth_error catalog (Z.to_nat n)) as [c|] eqn:N.
    + now exists c.
    + apply nth_error_None in N. lia.
  - intros Hno Hrange.
    assert (F : find (fun camera => index camera =? n) catalog = None).
    { apply find_none_iff. intros y Hy. apply Z.eqb_neq. now apply Hno. }
    rewrite F.
    replace ((0 <=? n) && (n <? Z.of_nat (List.length catalog)))%bool with false.
    + split; [reflexivity | split].
      * exists selector. now left.
      * apply device_not_found_mentions.
    + symmetry. apply andb_false_iff.
      destruct (Z.leb_spec 0 n); [right | now left].
      apply Z.ltb_ge. lia.
Qed.

Lemma resolve_integer_selector_witness :
  resolve_device "55" Scenario.catalog = Return 55
  /\ resolve_device "0" Scenario.catalog = Return 1200
  /\ resolve_device "1" Scenario.crossed = Return 1
  /\ resolve_device " +2 " Scenario.catalog
     = Raise (ClickException (msg_device_not_found " +2 ")).
Proof.
  assert (Hne : Scenario.catalog <> []) by discriminate.
  assert (Hne' : Scenario.crossed <> []) by discriminate.
  assert (No : forall n, (n =? 1200) = false -> (n =? 55) = false ->
                 forall c, In c Scenario.catalog -> index c <> n).
  { intros n A B c [<- | [<- | []]]; simpl; intros E; subst n; discriminate. }
  split; [|split; [|split]].
  - apply (resolve_integer_selector "55" Scenario.catalog 55 Hne eq_refl).
    exists (mkCamera 55 (Some "FaceTime HD"%string)). split; [|reflexivity].
    right. now left.
  - destruct (resolve_integer_selector "0" Scenario.catalog 0 Hne eq_refl)
      as [_ [P _]].
    destruct P as [c [Hc ->]];
      [now apply No | simpl; lia | now injection Hc as <-].
  - apply (resolve_integer_selector "1" Scenario.crossed 1 Hne' eq_refl).
    exists (mkCamera 1 None). split; [now left | reflexivity].
  - destruct (resolve_integer_selector " +2 " Scenario.catalog 2 Hne eq_refl)
      as [_ [_ P]].
    apply P; [now apply No | simpl; lia].
Defined.

(** ** C7 *)

(** C7. On an empty catalog resolution fails, for every selector, with
    the NoDevicesFound error, whose message is that of no DeviceNotFound
    error; the selector is not looked at. *)
Theorem resolve_empty_catalog (selector : string) :
  resolve_device selector [] = Raise (ClickException msg_no_cameras)
  /\ NoDevicesFound (ClickException msg_no_cameras)
  /\ ~ DeviceNotFound (ClickException msg_no_cameras).
Proof.
  repeat split. intros [s [H | H]]; discriminate H.
Qed.

End ResolverFacts.

(** ** Frame names *)

Module FormatFacts.
Import Py PyFacts Session.
Local Open Scope string_scope.

Lemma code_digit_char (d : Z) : 0 <= d <= 9 -> code (digit_char d) = 48 + d.
Proof.
  intros H. unfold code, digit_char, chr.
  rewrite N_ascii_embedding; lia.
Qed.

Lemma fixed_width_length (w : nat) (n : Z) : String.length (fixed_width w n) = w.
Proof.
  revert n; induction w as [|w IH]; intros n; simpl; [reflexivity|].
  rewrite length_append, IH. simpl. lia.
Qed.

Lemma zeros_snoc (k : nat) : zeros k ++ "0" = zeros (S k).
Proof. induction k as [|k IH]; simpl; [reflexivity | now rewrite IH]. Qed.

Lemma fixed_width_zero (w : nat) : fixed_width w 0 = zeros w.
Proof.
  induction w as [|w IH]; simpl; [reflexivity|].
  rewrite Z.div_0_l, IH by lia. apply zeros_snoc.
Qed.

Lemma zfill_snoc (w : nat) (a : string) (x : ascii) :
  zfill (S w) (a ++ String x "") = zfill w a ++ String x "".
Proof.
  unfold zfill. rewrite length_append, append_assoc.
  replace (S w - (String.length a + String.length (String x "")))%nat
    with (w - String.length a)%nat
    by (change (String.length (String x "")) with 1%nat; lia).
  reflexivity.
Qed.

(** Padding the digits of [n] to [w] places gives the fixed-width
    encoding, as soon as [n] has at most [w] digits. *)
Lemma zfill_dec_digits (fuel : nat) :
  forall (n : Z) (w : nat),
    0 <= n < 10 ^ Z.of_nat fuel -> n < 10 ^ Z.of_nat w -> (0 < w)%nat ->
    zfill w (dec_digits fuel n) = fixed_width w n.
Proof.
  induction fuel as [|fuel IH]; intros n w Hn Hw Hpos.
  - simpl in Hn. assert (n = 0) by lia. subst n.
    unfold zfill. simpl. rewrite append_empty_r, Nat.sub_0_r.
    symmetry. apply fixed_width_zero.
  - destruct w as [|w]; [lia|]. simpl dec_digits.
    destruct (Z.ltb_spec n 10) as [Hlt | Hge].
    + simpl fixed_width. rewrite Z.div_small, Z.mod_small by lia.
      rewrite fixed_width_zero. unfold zfill. simpl.
      now rewrite Nat.sub_0_r.
    + rewrite zfill_snoc. simpl fixed_width. f_equal.
      rewrite Nat2Z.inj_succ, Z.pow_succ_r in Hn, Hw by lia.
      assert (Hw1 : (0 < w)%nat).
      { destruct w; [simpl in Hw; lia | lia]. }
      apply IH; [split | | exact Hw1].
      * apply Z.div_pos; lia.
      * apply Z.div_lt_upper_bound; lia.
      * apply Z.div_lt_upper_bound; lia.
Qed.

Lemma str_nat_fuel (n : Z) :
  0 <= n -> n < 10 ^ Z.of_nat (S (Z.to_nat (Z.log2 n))).
Proof.
  intros Hn. rewrite Nat2Z.inj_succ, Z2Nat.id by apply Z.log2_nonneg.
  destruct (Z.eq_dec n 0) as [-> | Hnz].
  - simpl. lia.
  - assert (H : n < 2 ^ Z.succ (Z.log2 n)) by (apply Z.log2_spec; lia).
    eapply Z.lt_le_trans; [exact H|].
    apply Z.pow_le_mono_l. lia.
Qed.

(** [format_06d] is the six-digit fixed-width encoding up to 999999. *)
Lemma format_06d_fixed (n : Z) :
  0 <= n <= 999999 -> format_06d n = fixed_width 6 n.
Proof.
  intros Hn. unfold format_06d.
  destruct (Z.ltb_spec n 0); [lia|]. unfold str_nat.
  apply zfill_dec_digits; [split; [lia | now apply str_nat_fuel] | | lia].
  change (10 ^ Z.of_nat 6) with 1000000. lia.
Qed.

Lemma ascii_compare_refl (c : ascii) : Ascii.compare c c = Eq.
Proof. unfold Ascii.compare. apply N.compare_refl. Qed.

Lemma compare_refl (s : string) : String.compare s s = Eq.
Proof.
  induction s as [|c s IH]; simpl; [reflexivity|].
  now rewrite ascii_compare_refl.
Qed.

Lemma compare_common_prefix (p a b : string) :
  String.compare (p ++ a) (p ++ b) = String.compare a b.
Proof.
  induction p as [|c p IH]; simpl; [reflexivity|].
  now rewrite ascii_compare_refl.
Qed.

Lemma compare_same_length (a : string) :
  forall b x y,
    String.length a = String.length b ->
    String.compare (a ++ x) (b ++ y)
    = match String.compare a b with
      | Eq => String.compare x y
      | c => c
      end.
Proof.
  induction a as [|c a IH]; intros [|d b] x y H; simpl in H; try discriminate.
  - reflexivity.
  - simpl. destruct (Ascii.compare c d); [apply IH; lia | reflexivity..].
Qed.

Local Close Scope string_scope.

Lemma compare_digit (a b : Z) :
  0 <= a <= 9 -> 0 <= b <= 9 ->
  String.compare (String (digit_char a) EmptyString)
                 (String (digit_char b) EmptyString)
  = (a ?= b).
Proof.
  intros Ha Hb. simpl. unfold Ascii.compare.
  assert (Ea : N_of_ascii (digit_char a) = Z.to_N (48 + a)).
  { unfold digit_char, chr. apply N_ascii_embedding. lia. }
  assert (Eb : N_of_ascii (digit_char b) = Z.to_N (48 + b)).
  { unfold digit_char, chr. apply N_ascii_embedding. lia. }
  rewrite Ea, Eb, Z2N.inj_compare by lia.
  rewrite Z.add_compare_mono_l.
  now destruct (a ?= b).
Qed.

Lemma compare_by_digits (i j : Z) :
  (i ?= j)
  = match i / 10 ?= j / 10 with
    | Eq => i mod 10 ?= j mod 10
    | c => c
    end.
Proof.
  pose proof (Z.div_mod i 10 ltac:(lia)) as Hi.
  pose proof (Z.div_mod j 10 ltac:(lia)) as Hj.
  pose proof (Z.mod_pos_bound i 10 ltac:(lia)) as Bi.
  pose proof (Z.mod_pos_bound j 10 ltac:(lia)) as Bj.
  destruct (Z.compare_spec (i / 10) (j / 10)) as [E | L | G].
  - destruct (Z.compare_spec (i mod 10) (j mod 10));
      [apply Z.compare_eq_iff | apply Z.compare_lt_iff | apply Z.compare_gt_iff];
      lia.
  - apply Z.compare_lt_iff. lia.
  - apply Z.compare_gt_iff. lia.
Qed.

(** The fixed-width encoding turns the order of numbers into the order of
    strings. *)
Lemma fixed_width_compare (w : nat) :
  forall i j,
    0 <= i < 10 ^ Z.of_nat w -> 0 <= j < 10 ^ Z.of_nat w ->
    String.compare (fixed_width w i) (fixed_width w j) = (i ?= j).
Proof.
  induction w as [|w IH]; intros i j Hi Hj.
  - simpl in *. assert (i = 0) by lia. assert (j = 0) by lia. now subst.
  - simpl fixed_width.
    rewrite compare_same_length by now rewrite !fixed_width_length.
    rewrite Nat2Z.inj_succ, Z.pow_succ_r in Hi, Hj by lia.
    rewrite IH, compare_digit, <- compare_by_digits; try reflexivity;
      try (apply Z.mod_pos_bound; lia) ||
      (split; [apply Z.div_pos | apply Z.div_lt_upper_bound]; lia).
    all: pose proof (Z.mod_pos_bound i 10 ltac:(lia));
         pose proof (Z.mod_pos_bound j 10 ltac:(lia)); lia.
Qed.

End FormatFacts.

(** ** The capture session *)

Module SessionFacts.
Import Py Resolver Session.

Lemma count_app (f : event -> bool) (a b : list event) :
  count f (a ++ b) = (count f a + count f b)%nat.
Proof. unfold count. now rewrite filter_app, length_app. Qed.

Lemma count_cons (f : event -> bool) (e : event) (l : list event) :
  count f (e :: l) = ((if f e then 1 else 0) + count f l)%nat.
Proof. unfold count. simpl. now destruct (f e). Qed.

Lemma count_nil (f : event -> bool) : count f [] = 0%nat.
Proof. reflexivity. Qed.

(** Unfold one pass of the body and go through what the world may do. *)
Ltac open_body p interval :=
  unfold body, deliver, call, lift, echo, signal_handler, bind, emit, ret,
    raise, get_frame_count, set_frame_count, set_flag, after;
  destruct (existsb (point_eqb AtRead) (sigint p));
  destruct (read p) as [[|]|?]; cbn;
  try (destruct (existsb (point_eqb AtWrite) (sigint p));
       destruct (imwrite p) as [?|?]; cbn;
       try (destruct (existsb (point_eqb AtUpdate) (sigint p));
            destruct (update p) as [[]|?]; cbn;
            try (destruct (existsb (point_eqb AtSleep) (sigint p));
                 destruct (time_sleep interval) as [[]|?]; cbn))).

(** The body never releases the handle, opens a device or reports the
    count, and it always comes to an end. *)
Lemma body_calls (interval : pyfloat) (out : string) (p : pass) (v : vars) :
  forall r v' t,
    body interval out p v = (r, v', t) ->
    count is_release t = 0%nat
    /\ count is_open t = 0%nat
    /\ count is_count_report t = 0%nat
    /\ r <> Pending.
Proof.
  intros r v' t. open_body p interval; intros [= <- <- <-];
    repeat split; discriminate.
Qed.

(** The counter goes up by one for each write that returns, every frame
    read is handed to the writer, and the flag is never reset. *)
Lemma body_counts (interval : pyfloat) (out : string) (p : pass) (v : vars) :
  forall r v' t,
    body interval out p v = (r, v', t) ->
    frame_count v' = frame_count v + Z.of_nat (count is_saved t)
    /\ count is_read_ok t = count is_imwrite t
    /\ (count is_imwrite t <= 1)%nat
    /\ (stop_recording v = true -> stop_recording v' = true).
Proof.
  intros r v' t. open_body p interval; intros [= <- <- <-]; cbn;
    repeat split; try lia; auto.
Qed.

(** The body does not read the flag. *)
Lemma body_ignores_flag (interval : pyfloat) (out : string) (p : pass)
  (b1 b2 : bool) (n : Z) :
  fst (fst (body interval out p (mkVars b1 n)))
  = fst (fst (body interval out p (mkVars b2 n)))
  /\ snd (body interval out p (mkVars b1 n))
     = snd (body interval out p (mkVars b2 n))
  /\ frame_count (snd (fst (body interval out p (mkVars b1 n))))
     = frame_count (snd (fst (body interval out p (mkVars b2 n)))).
Proof. open_body p interval; repeat split. Qed.

(** A pass during which the flag is down at the start: either nobody
    interrupts, the flag stays down and no request is printed, or the flag
    is up at the end and at most one write follows the first request. *)
Lemma body_request (interval : pyfloat) (out : string) (p : pass) (v : vars) :
  forall r v' t,
    stop_recording v = false ->
    body interval out p v = (r, v', t) ->
    (stop_recording v' = false /\ count is_stop_request t = 0%nat)
    \/ (stop_recording v' = true
        /\ (1 <= count is_stop_request t)%nat
        /\ (count is_imwrite (after_request t) <= 1)%nat).
Proof.
  intros r v' t Hv. destruct v as [b n]. simpl in Hv. subst b.
  open_body p interval; intros [= <- <- <-]; cbn;
    solve [ left; split; reflexivity
          | right; repeat split; cbn; lia ].
Qed.

(** A pass without interrupt in which the read fails. *)
Lemma body_read_fails (interval : pyfloat) (out : string) (p : pass) (v : vars) :
  quiet p -> read p = Return false ->
  body interval out p v
  = (Val (Some BreakOut), v, [Read (Return false); Echo true FailedToCapture]).
Proof.
  unfold quiet. intros Hq Hr. unfold body, deliver. rewrite Hq, Hr.
  destruct v. reflexivity.
Qed.

(** A pass without interrupt in which all goes well. *)
Lemma body_quiet_completes (interval : pyfloat) (out : string) (p : pass)
  (v : vars) (ok : bool) :
  quiet p -> read p = Return true -> imwrite p = Return ok ->
  update p = Return tt -> time_sleep interval = Return tt ->
  body interval out p v
  = (Val None, mkVars (stop_recording v) (frame_count v + 1),
     pass_calls interval out (frame_count v) ok).
Proof.
  unfold quiet. intros Hq Hr Hw Hu Hs. unfold body, deliver.
  rewrite Hq, Hr, Hw, Hu, Hs. destruct v. reflexivity.
Qed.

(** The frame read in a pass is written under the name of the counter. *)
Lemma body_written (interval : pyfloat) (out : string) (p : pass) (v : vars) :
  read p = Return true ->
  written (snd (body interval out p v)) = [frame_name (frame_count v)].
Proof.
  intros Hr. revert Hr. open_body p interval; intros Hr;
    try discriminate Hr; reflexivity.
Qed.

(** When [time.sleep] refuses the interval, no pass goes on to the next
    test of the loop. *)
Lemma body_sleep_raises (interval : pyfloat) (out : string) (p : pass)
  (v : vars) (e : exn) :
  time_sleep interval = Raise e ->
  fst (fst (body interval out p v)) <> Val None.
Proof.
  intros Hs. revert Hs. open_body p interval; intros Hs;
    try discriminate Hs; discriminate.
Qed.

Lemma interrupt_somewhere (p : pass) :
  sigint p <> [] ->
  (existsb (point_eqb AtRead) (sigint p)
   || existsb (point_eqb AtWrite) (sigint p)
   || existsb (point_eqb AtUpdate) (sigint p)
   || existsb (point_eqb AtSleep) (sigint p))%bool = true.
Proof.
  destruct (sigint p) as [|[] l]; [now intros H; elim H | ..]; intros _; cbn;
    repeat (rewrite ?orb_true_r, ?orb_true_l); reflexivity.
Qed.

(** A pass in which every call returns goes on to the next test of the
    loop, with the flag up if there was an interrupt. *)
Lemma body_completes (interval : pyfloat) (out : string) (p : pass) (v : vars) :
  completes p -> time_sleep interval = Return tt ->
  fst (fst (body interval out p v)) = Val None
  /\ (sigint p <> [] -> stop_recording (snd (fst (body interval out p v))) = true)
  /\ (sigint p = [] ->
      stop_recording (snd (fst (body interval out p v))) = stop_recording v).
Proof.
  intros [Hr [[ok Hw] Hu]] Hs. split; [|split].
  - revert Hr Hw Hu Hs. open_body p interval; intros Hr Hw Hu Hs;
      try discriminate; reflexivity.
  - intros Hi. apply interrupt_somewhere in Hi.
    revert Hr Hw Hu Hs Hi. open_body p interval; intros Hr Hw Hu Hs Hi;
      try discriminate; reflexivity.
  - intros Hi. unfold body, deliver. rewrite Hi, Hr, Hw, Hu, Hs.
    destruct v. reflexivity.
Qed.

(** What a write returns changes nothing but the record of that call. *)
Lemma body_write_succeeds (interval : pyfloat) (out : string) (p : pass)
  (v : vars) :
  body interval out (write_succeeds p) v
  = (fst (fst (body interval out p v)),
     snd (fst (body interval out p v)),
     map forget_written (snd (body interval out p v))).
Proof.
  unfold write_succeeds, body, deliver. cbn [sigint read imwrite update].
  unfold call, lift, echo, signal_handler, bind, emit, ret,
    raise, get_frame_count, set_frame_count, set_flag, after.
  destruct (existsb (point_eqb AtRead) (sigint p));
  destruct (read p) as [[|]|?]; cbn; try reflexivity;
  destruct (existsb (point_eqb AtWrite) (sigint p));
  destruct (imwrite p) as [?|?]; cbn; try reflexivity;
  destruct (existsb (point_eqb AtUpdate) (sigint p));
  destruct (update p) as [[]|?]; cbn; try reflexivity;
  destruct (existsb (point_eqb AtSleep) (sigint p));
  destruct (time_sleep interval) as [[]|?]; cbn; reflexivity.
Qed.

(** *** The loop *)

Lemma loop_stopped (interval : pyfloat) (out : string) (ps : list pass)
  (v : vars) :
  stop_recording v = true ->
  while_loop interval out ps v = (Val ConditionFalse, v, []).
Proof. intros H. destruct ps; simpl; now rewrite H. Qed.

Lemma loop_step (interval : pyfloat) (out : string) (p : pass)
  (ps : list pass) (v : vars) :
  stop_recording v = false ->
  while_loop interval out (p :: ps) v
  = match body interval out p v with
    | (Val None, v', t) => after t (while_loop interval out ps v')
    | (Val (Some how), v', t) => (Val how, v', t)
    | (Exc e, v', t) => (Exc e, v', t)
    | (Pending, v', t) => (Pending, v', t)
    end.
Proof. intros H. simpl. now rewrite H. Qed.

(** Go through the ways a loop of at least one pass can go on. *)
Ltac open_loop H i o p ps v :=
  let rb := fresh "rb" in let vb := fresh "vb" in let tb := fresh "tb" in
  let B := fresh "B" in
  let r2 := fresh "r2" in let v2 := fresh "v2" in let t2 := fresh "t2" in
  let W := fresh "W" in
  destruct (body i o p v) as [[rb vb] tb] eqn:B;
  destruct rb as [[how|]|e|];
  [ | destruct (while_loop i o ps vb) as [[r2 v2] t2] eqn:W;
      unfold after in H | | ].

(** The loop never releases the handle, opens a device or reports the
    count. *)
Lemma loop_calls (interval : pyfloat) (out : string) (ps : list pass) :
  forall v r v' t,
    while_loop interval out ps v = (r, v', t) ->
    count is_release t = 0%nat
    /\ count is_open t = 0%nat
    /\ count is_count_report t = 0%nat.
Proof.
  induction ps as [|p ps IH]; intros v r v' t H.
  - simpl in H. destruct (stop_recording v); injection H as <- <- <-;
      now repeat split.
  - destruct (stop_recording v) eqn:S.
    + rewrite loop_stopped in H by exact S. injection H as <- <- <-.
      now repeat split.
    + rewrite loop_step in H by exact S. open_loop H interval out p ps v;
        pose proof (body_calls _ _ _ _ _ _ _ B) as [R [O [C _]]];
        injection H as <- <- <-; try now repeat split.
      destruct (IH _ _ _ _ W) as [R2 [O2 C2]].
      rewrite !count_app. repeat split; lia.
Qed.

(** Along the loop the counter is the number of writes that returned,
    every frame read is handed to the writer. *)
Lemma loop_counts (interval : pyfloat) (out : string) (ps : list pass) :
  forall v r v' t,
    while_loop interval out ps v = (r, v', t) ->
    frame_count v' = frame_count v + Z.of_nat (count is_saved t)
    /\ count is_read_ok t = count is_imwrite t.
Proof.
  induction ps as [|p ps IH]; intros v r v' t H.
  - simpl in H. destruct (stop_recording v); injection H as <- <- <-;
      cbn; split; lia.
  - destruct (stop_recording v) eqn:S.
    + rewrite loop_stopped in H by exact S. injection H as <- <- <-.
      cbn; split; lia.
    + rewrite loop_step in H by exact S. open_loop H interval out p ps v;
        pose proof (body_counts _ _ _ _ _ _ _ B) as [F [R _]];
        injection H as <- <- <-; try (split; [exact F | exact R]).
      destruct (IH _ _ _ _ W) as [F2 R2].
      rewrite !count_app. split; lia.
Qed.

Lemma after_request_none (a b : list event) :
  count is_stop_request a = 0%nat ->
  after_request (a ++ b) = after_request b.
Proof.
  induction a as [|e a IH]; intros H; [reflexivity|].
  rewrite count_cons in H. simpl.
  destruct (is_stop_request e); [lia | apply IH; lia].
Qed.

Lemma after_request_some (a b : list event) :
  (1 <= count is_stop_request a)%nat ->
  after_request (a ++ b) = after_request a ++ b.
Proof.
  induction a as [|e a IH]; intros H; [cbn in H; lia|].
  rewrite count_cons in H. simpl.
  destruct (is_stop_request e); [reflexivity | apply IH; lia].
Qed.

Lemma after_request_nothing (a : list event) :
  count is_stop_request a = 0%nat -> after_request a = [].
Proof.
  intros H. rewrite <- (app_nil_r a). now rewrite after_request_none.
Qed.

(** From a test of the loop at which the flag is down: at most one write
    follows the first request; a loop in which a request was made has come
    to an end; without a request the flag is still down. *)
Lemma loop_request (interval : pyfloat) (out : string) (ps : list pass) :
  forall v r v' t,
    stop_recording v = false ->
    while_loop interval out ps v = (r, v', t) ->
    (count is_imwrite (after_request t) <= 1)%nat
    /\ ((1 <= count is_stop_request t)%nat -> r <> Pending)
    /\ (count is_stop_request t = 0%nat -> stop_recording v' = false).
Proof.
  induction ps as [|p ps IH]; intros v r v' t S H.
  - simpl in H. rewrite S in H. injection H as <- <- <-. cbn.
    split; [lia | split; [intros; lia | intros _; exact S]].
  - rewrite loop_step in H by exact S. open_loop H interval out p ps v;
      pose proof (body_calls _ _ _ _ _ _ _ B) as [_ [_ [_ NP]]];
      try (now elim NP);
      destruct (body_request _ _ _ _ _ _ _ S B) as [[S' Q] | [S' [Q A]]].
    + injection H as <- <- <-. rewrite (after_request_nothing _ Q). cbn.
      split; [lia | split; [discriminate | intros _; exact S']].
    + injection H as <- <- <-.
      split; [exact A | split; [discriminate | intros; lia]].
    + injection H as <- <- <-.
      destruct (IH _ _ _ _ S' W) as [A2 [P2 Z2]].
      rewrite after_request_none, count_app by exact Q.
      split; [exact A2 | split; [intros; apply P2; lia | intros; apply Z2; lia]].
    + injection H as <- <- <-.
      rewrite loop_stopped in W by exact S'. injection W as <- <- <-.
      rewrite app_nil_r.
      split; [exact A | split; [discriminate | intros; lia]].
    + injection H as <- <- <-. rewrite (after_request_nothing _ Q). cbn.
      split; [lia | split; [discriminate | intros _; exact S']].
    + injection H as <- <- <-.
      split; [exact A | split; [discriminate | intros; lia]].
Qed.

(** Passes that go well are run one after the other, each writing the
    frame of the next number. *)
Lemma loop_goes_well (interval : pyfloat) (out : string) (good : list pass) :
  forall (oks : list bool) (rest : list pass) (n : Z),
    Forall2 goes_well good oks ->
    time_sleep interval = Return tt ->
    while_loop interval out (good ++ rest) (mkVars false n)
    = after (passes_calls interval out n oks)
        (while_loop interval out rest
           (mkVars false (n + Z.of_nat (List.length good)))).
Proof.
  induction good as [|p good IH]; intros oks rest n HF Hs.
  - inversion HF; subst. cbn [app List.length passes_calls Z.of_nat].
    rewrite Z.add_0_r. unfold after.
    now destruct (while_loop interval out rest (mkVars false n)) as [[r v] t].
  - inversion HF as [|p' ok good' oks' [Hq [Hr [Hw Hu]]] HF']; subst.
    cbn [app]. rewrite loop_step by reflexivity.
    rewrite (body_quiet_completes _ _ _ _ ok Hq Hr Hw Hu Hs).
    cbn [stop_recording frame_count]. rewrite (IH _ _ _ HF' Hs).
    replace (n + 1 + Z.of_nat (List.length good))
      with (n + Z.of_nat (List.length (p :: good)))
      by (cbn [List.length]; lia).
    destruct (while_loop interval out rest
                (mkVars false (n + Z.of_nat (List.length (p :: good)))))
      as [[r v] t].
    unfold after. cbn [passes_calls]. now rewrite <- app_assoc.
Qed.

(** What the writes return changes nothing in the loop but the record of
    those calls. *)
Lemma loop_write_succeeds (interval : pyfloat) (out : string) (ps : list pass) :
  forall v,
    while_loop interval out (map write_succeeds ps) v
    = (fst (fst (while_loop interval out ps v)),
       snd (fst (while_loop interval out ps v)),
       map forget_written (snd (while_loop interval out ps v))).
Proof.
  induction ps as [|p ps IH]; intros v.
  - simpl. now destruct (stop_recording v).
  - destruct (stop_recording v) eqn:S.
    + cbn [map]. now rewrite !loop_stopped by exact S.
    + cbn [map]. rewrite !loop_step by exact S.
      rewrite body_write_succeeds.
      destruct (body interval out p v) as [[rb vb] tb].
      cbn [fst snd]. destruct rb as [[how|]|e|]; try reflexivity.
      rewrite IH.
      destruct (while_loop interval out ps vb) as [[r2 v2] t2].
      unfold after. cbn [fst snd]. now rewrite map_app.
Qed.

(** When the calls of the passes up to an interrupted one return, the
    loop ends at its test: later passes are not run. *)
Lemma loop_interrupted (interval : pyfloat) (out : string)
  (before : list pass) (p : pass) (rest : list pass) :
  forall v,
    Forall completes before ->
    completes p ->
    sigint p <> [] ->
    time_sleep interval = Return tt ->
    fst (fst (while_loop interval out (before ++ p :: rest) v))
    = Val ConditionFalse.
Proof.
  induction before as [|a before IH]; intros v HF Hp Hi Hs;
    (destruct (stop_recording v) eqn:S; [now rewrite loop_stopped|]);
    cbn [app]; rewrite loop_step by exact S.
  - destruct (body_completes interval out p v Hp Hs) as [R [Up _]].
    destruct (body interval out p v) as [[rb vb] tb].
    cbn [fst snd] in R, Up. subst rb.
    rewrite loop_stopped by now apply Up. reflexivity.
  - inversion HF as [|a' before' Ha HF']; subst.
    destruct (body_completes interval out a v Ha Hs) as [R _].
    destruct (body interval out a v) as [[rb vb] tb].
    cbn [fst] in R. subst rb.
    specialize (IH vb HF' Hp Hi Hs).
    destruct (while_loop interval out (before ++ p :: rest) vb) as [[r2 v2] t2].
    exact IH.
Qed.

(** When [time.sleep] refuses the interval the loop makes at most one
    pass: at most one frame is written. *)
Lemma loop_sleep_raises (interval : pyfloat) (out : string) (ps : list pass)
  (v : vars) (e : exn) :
  time_sleep interval = Raise e ->
  (count is_imwrite (snd (while_loop interval out ps v)) <= 1)%nat.
Proof.
  intros Hs. destruct ps as [|p ps].
  - simpl. destruct (stop_recording v); cbn; lia.
  - destruct (stop_recording v) eqn:S; [rewrite loop_stopped by exact S; cbn; lia|].
    rewrite loop_step by exact S.
    pose proof (body_sleep_raises interval out p v e Hs) as N.
    destruct (body interval out p v) as [[rb vb] tb] eqn:B.
    pose proof (body_counts _ _ _ _ _ _ _ B) as [_ [_ [W _]]].
    cbn [fst snd] in N.
    destruct rb as [[how|]|e'|]; cbn [snd]; try exact W. now elim N.
Qed.

(** *** Whole runs *)

(** A run in which the device is found and opened: the calls before the
    loop, those of the loop, and, once the loop has ended, the release, the
    report and the end of the display. *)
Lemma run_recording (w : world) (device : string) (interval : pyfloat)
  (output_dir : option string) (device_index : Z) :
  resolve_device device (cameras w) = Return device_index ->
  is_opened w = true ->
  forall r v t,
    while_loop interval (output_path_of w output_dir) (passes w)
      (mkVars (sigint_before_loop w) 0) = (r, v, t) ->
    let pre := preamble w device_index interval (output_path_of w output_dir) in
    run w device interval output_dir
    = match r with
      | Val how =>
          mkOutcome (Val how) (Some 0) (frame_count v)
            (pre ++ t ++ epilogue (frame_count v))
      | Exc e =>
          mkOutcome (Exc e) (Some (exit_code_of e)) (frame_count v)
            ((pre ++ t ++ epilogue (frame_count v)) ++ click_shows e)
      | Pending => mkOutcome Pending None (frame_count v) (pre ++ t)
      end.
Proof.
  intros Hres Hopen r v t HW. unfold run, start, preamble.
  unfold bind at 1. cbn [emit]. unfold bind at 1. rewrite Hres. cbn [lift ret].
  unfold after at 1. unfold after at 1.
  unfold signal_handler, try_finally, finally_clause, echo, bind, emit, ret,
    raise, get_frame_count, set_frame_count, set_flag, after, initial.
  cbn [frame_count stop_recording]. rewrite Hopen. cbn [negb].
  destruct (sigint_before_loop w); cbn [frame_count stop_recording];
    rewrite HW; destruct r as [how|e|]; destruct v as [b n];
    cbn [frame_count app]; rewrite <- ?app_assoc; reflexivity.
Qed.

(** A run in which no device is found ends before anything else is done. *)
Lemma run_unresolved (w : world) (device : string) (interval : pyfloat)
  (output_dir : option string) (e : exn) :
  resolve_device device (cameras w) = Raise e ->
  run w device interval output_dir
  = mkOutcome (Exc e) (Some (exit_code_of e)) 0
      ([Mkdir (output_path_of w output_dir)] ++ click_shows e).
Proof.
  intros Hres. unfold run, start.
  unfold bind at 1. cbn [emit]. unfold bind at 1. rewrite Hres. reflexivity.
Qed.

(** A run in which the device cannot be opened ends with [sys.exit(1)]. *)
Lemma run_unopened (w : world) (device : string) (interval : pyfloat)
  (output_dir : option string) (device_index : Z) :
  resolve_device device (cameras w) = Return device_index ->
  is_opened w = false ->
  run w device interval output_dir
  = mkOutcome (Exc (SystemExit 1)) (Some 1) 0
      ([Mkdir (output_path_of w output_dir); SetSigint]
       ++ (if sigint_before_loop w then [Echo false StoppingRecording] else [])
       ++ [VideoCapture device_index; Echo true (CouldNotOpen device_index)]).
Proof.
  intros Hres Hopen. unfold run, start.
  unfold bind at 1. cbn [emit]. unfold bind at 1. rewrite Hres. cbn [lift ret].
  unfold signal_handler, echo, bind, emit, ret, raise, set_flag, after, initial.
  rewrite Hopen. destruct (sigint_before_loop w); reflexivity.
Qed.

Lemma count_preamble (w : world) (idx : Z) (interval : pyfloat) (out : string) :
  count is_release (preamble w idx interval out) = 0%nat
  /\ count is_open (preamble w idx interval out) = 1%nat
  /\ count is_count_report (preamble w idx interval out) = 0%nat
  /\ count is_imwrite (preamble w idx interval out) = 0%nat
  /\ count is_saved (preamble w idx interval out) = 0%nat
  /\ count is_read_ok (preamble w idx interval out) = 0%nat.
Proof. unfold preamble. destruct (sigint_before_loop w); now repeat split. Qed.

Lemma count_click_shows (f : event -> bool) (e : exn) :
  (forall m, f (Echo true (ClickError m)) = false) ->
  count f (click_shows e) = 0%nat.
Proof. intros H. destruct e; cbn; try reflexivity. now rewrite H. Qed.

(** ** C5 *)

(** C5. When the device was found and opened, the handle is released
    exactly once on every way out of the loop: when the test of the loop
    sees the stop flag, when a read fails, and when any call in the body
    raises. It is not released while the loop is still running, and the
    device is opened once. *)
Theorem handle_released_once (w : world) (device : string)
  (interval : pyfloat) (output_dir : option string) (device_index : Z) :
  resolve_device device (cameras w) = Return device_index ->
  is_opened w = true ->
  let r := run w device interval output_dir in
  (ended r = Val ConditionFalse -> count is_release (calls r) = 1%nat)
  /\ (ended r = Val BreakOut -> count is_release (calls r) = 1%nat)
  /\ (forall e, ended r = Exc e -> count is_release (calls r) = 1%nat)
  /\ (ended r = Pending -> count is_release (calls r) = 0%nat)
  /\ count is_open (calls r) = 1%nat.
Proof.
  intros Hres Hopen r.
  destruct (while_loop interval (output_path_of w output_dir) (passes w)
              (mkVars (sigint_before_loop w) 0)) as [[rl v] t] eqn:HW.
  pose proof (run_recording w device interval output_dir device_index
                Hres Hopen rl v t HW) as R.
  destruct (loop_calls _ _ _ _ _ _ _ HW) as [Rel [Op _]].
  destruct (count_preamble w device_index interval (output_path_of w output_dir))
    as [PRel [POp _]].
  assert (Shown : forall e, count is_release (click_shows e) = 0%nat
                            /\ count is_open (click_shows e) = 0%nat).
  { intros e. split; now apply count_click_shows. }
  subst r. rewrite R. clear R.
  destruct rl as [how|e|]; cbn [ended calls];
    rewrite ?count_app, ?PRel, ?POp, ?Rel, ?Op;
    try (destruct (Shown e) as [-> ->]); cbn;
    repeat split; intros; try discriminate; reflexivity.
Qed.

Lemma handle_released_once_witness :
  count is_release
    (calls (run Scenario.fails_on_fifth "0" (Finite 1) None)) = 1%nat
  /\ count is_release
       (calls (run (Scenario.working [Scenario.fine; Scenario.interrupted])
                 "anker" (Finite 0) (Some "out"%string))) = 1%nat
  /\ count is_release
       (calls (run (Scenario.working [Scenario.fine]) "0" (Finite (-1)) None))
     = 1%nat.
Proof.
  split; [|split].
  - destruct (handle_released_once Scenario.fails_on_fifth "0" (Finite 1) None
                1200 eq_refl eq_refl) as [_ [Broken _]].
    exact (Broken eq_refl).
  - destruct (handle_released_once
                (Scenario.working [Scenario.fine; Scenario.interrupted])
                "anker" (Finite 0) (Some "out"%string) 1200 eq_refl eq_refl)
      as [Stopped _].
    exact (Stopped eq_refl).
  - destruct (handle_released_once (Scenario.working [Scenario.fine]) "0"
                (Finite (-1)) None 1200 eq_refl eq_refl)
      as [_ [_ [Raised _]]].
    exact (Raised (ValueError "sleep length must be non-negative") eq_refl).
Defined.

(** ** C2 *)



(** ** C3 *)

(** After [k] passes that go well, a pass in which the read fails ends
    the loop by [break]: the [k] frames were written under the first [k]
    names, the handle is released, the count [k] is reported, and the
    command returns, so that the exit status is 0. *)
Lemma capture_failure_after (w : world) (device : string)
  (interval : pyfloat) (output_dir : option string) (device_index : Z)
  (good : list pass) (oks : list bool) (bad : pass) (rest : list pass) :
  resolve_device device (cameras w) = Return device_index ->
  is_opened w = true ->
  sigint_before_loop w = false ->
  time_sleep interval = Return tt ->
  passes w = good ++ bad :: rest ->
  Forall2 goes_well good oks ->
  quiet bad -> read bad = Return false ->
  let out := output_path_of w output_dir in
  let k := Z.of_nat (List.length good) in
  run w device interval output_dir
  = mkOutcome (Val BreakOut) (Some 0) k
      (preamble w device_index interval out
       ++ (passes_calls interval out 0 oks
           ++ [Read (Return false); Echo true FailedToCapture])
       ++ epilogue k).
Proof.
  intros Hres Hopen Hsig Hs Hp Hgood Hq Hr out k.
  assert (HW : while_loop interval out (passes w)
                 (mkVars (sigint_before_loop w) 0)
               = (Val BreakOut, mkVars false k,
                  passes_calls interval out 0 oks
                  ++ [Read (Return false); Echo true FailedToCapture])).
  { rewrite Hsig, Hp, (loop_goes_well _ _ _ _ _ _ Hgood Hs).
    rewrite loop_step by reflexivity.
    now rewrite (body_read_fails _ _ _ _ Hq Hr). }
  now rewrite (run_recording w device interval output_dir device_index
                 Hres Hopen _ _ _ HW).
Qed.

(** C3. A device that fails on the fifth read, after four passes that
    went well: the loop is left by [break] (CaptureFailure), four frames
    were written, under the first four names, the count 4 is reported and
    the handle released once; the exit status is 0. *)
Theorem capture_failure_exit_status :
  terminationReason (run Scenario.fails_on_fifth "0" (Finite 1) None)
  = Some CaptureFailure
  /\ frames (run Scenario.fails_on_fifth "0" (Finite 1) None) = 4
  /\ written (calls (run Scenario.fails_on_fifth "0" (Finite 1) None))
     = ["frame_000000.jpg"; "frame_000001.jpg"; "frame_000002.jpg";
        "frame_000003.jpg"]%string
  /\ filter is_count_report
       (calls (run Scenario.fails_on_fifth "0" (Finite 1) None))
     = [Echo false (RecordingStopped 4)]
  /\ count is_release
       (calls (run Scenario.fails_on_fifth "0" (Finite 1) None)) = 1%nat
  /\ exit_status (run Scenario.fails_on_fifth "0" (Finite 1) None) = Some 0.
Proof.
  assert (R : run Scenario.fails_on_fifth "0" (Finite 1) None
              = mkOutcome (Val BreakOut) (Some 0) 4
                  (preamble Scenario.fails_on_fifth 1200 (Finite 1)
                     "capture-20250101-120000"
                   ++ (passes_calls (Finite 1) "capture-20250101-120000" 0
                         [true; true; true; true]
                       ++ [Read (Return false); Echo true FailedToCapture])
                   ++ epilogue 4)).
  { apply (capture_failure_after Scenario.fails_on_fifth "0" (Finite 1) None
             1200 [Scenario.fine; Scenario.fine; Scenario.fine; Scenario.fine]
             [true; true; true; true] Scenario.read_fails [Scenario.fine]);
      try reflexivity.
    repeat constructor. }
  rewrite R. repeat split.
Qed.

(** ** C4 *)

(** [time.sleep] refuses every negative length. *)
Lemma sleep_negative (interval : pyfloat) :
  negative interval ->
  exists e, time_sleep interval = Raise e /\ exit_code_of e = 1.
Proof.
  destruct interval as [q| | |]; cbn [negative]; intros H; try now elim H.
  - unfold time_sleep.
    destruct (Qle_bool (9223372036854775808 # 1000000000) q
              || Qltb q (- (9223372036854775808 # 1000000000)))%bool.
    + now eexists.
    + assert (L : Qltb q 0 = true).
      { unfold Qltb. destruct (Qle_bool 0 q) eqn:E; [|reflexivity].
        apply Qle_bool_iff in E. now apply Qlt_not_le in H. }
      rewrite L. now eexists.
  - now eexists.
Qed.

(** A pass in which every call returns, up to a sleep that raises: the
    frame has been written and counted when the exception leaves the
    body. *)
Lemma body_sleep_fails (interval : pyfloat) (out : string) (p : pass)
  (v : vars) (e : exn) :
  completes p -> time_sleep interval = Raise e ->
  fst (fst (body interval out p v)) = Exc e
  /\ frame_count (snd (fst (body interval out p v))) = frame_count v + 1.
Proof.
  intros [Hr [[ok Hw] Hu]] Hs.
  revert Hr Hw Hu Hs. open_body p interval; intros Hr Hw Hu Hs;
    try discriminate; injection Hs as <-; split; reflexivity.
Qed.

Lemma written_app (a b : list event) : written (a ++ b) = written a ++ written b.
Proof.
  induction a as [|e a IH]; [reflexivity|].
  destruct e; cbn; rewrite ?IH; reflexivity.
Qed.

Lemma written_preamble (w : world) (idx : Z) (interval : pyfloat) (out : string) :
  written (preamble w idx interval out) = [].
Proof. unfold preamble. now destruct (sigint_before_loop w). Qed.

Lemma written_click_shows (e : exn) : written (click_shows e) = [].
Proof. now destruct e. Qed.

(** C4, as the program has it. A negative [--interval] is not refused
    when the command starts: once the device is found and opened the
    session runs like any other, the device is opened and the loop
    entered; at most one frame is written, because the first pass that
    gets to the wait ends there, [time.sleep] raising on a negative
    length. When the calls of that first pass return, one frame has been
    written, under the first name, and counted; the handle is released
    once, the count is reported and the exit status is 1. *)
Theorem negative_interval_fails_at_first_wait (w : world) (device : string)
  (interval : pyfloat) (output_dir : option string) (device_index : Z) :
  negative interval ->
  resolve_device device (cameras w) = Return device_index ->
  is_opened w = true ->
  let r := run w device interval output_dir in
  In (VideoCapture device_index) (calls r)
  /\ count is_open (calls r) = 1%nat
  /\ (count is_imwrite (calls r) <= 1)%nat
  /\ (forall p rest,
        sigint_before_loop w = false ->
        passes w = p :: rest ->
        completes p ->
        exists e,
          time_sleep interval = Raise e
          /\ ended r = Exc e
          /\ frames r = 1
          /\ written (calls r) = [frame_name 0]
          /\ count is_release (calls r) = 1%nat
          /\ filter is_count_report (calls r) = [Echo false (RecordingStopped 1)]
          /\ exit_status r = Some 1).
Proof.
  intros Hneg Hres Hopen r.
  destruct (sleep_negative interval Hneg) as [e [Hs Hcode]].
  set (out := output_path_of w output_dir).
  destruct (while_loop interval out (passes w)
              (mkVars (sigint_before_loop w) 0)) as [[rl v] t] eqn:HW.
  pose proof (run_recording w device interval output_dir device_index
                Hres Hopen rl v t HW) as R. fold out in R.
  pose proof (loop_sleep_raises interval out (passes w)
                (mkVars (sigint_before_loop w) 0) e Hs) as One.
  rewrite HW in One. cbn [snd] in One.
  destruct (loop_calls _ _ _ _ _ _ _ HW) as [Rel [Op Rep]].
  destruct (count_preamble w device_index interval out)
    as [PRel [POp [PRep [PWr _]]]].
  split; [|split; [|split]].
  - assert (P : In (VideoCapture device_index)
                  (preamble w device_index interval out)).
    { unfold preamble. destruct (sigint_before_loop w); cbn; tauto. }
    subst r. rewrite R.
    destruct rl; cbn [calls];
      first [ apply in_or_app; left; exact P
            | apply in_or_app; left; apply in_or_app; left; exact P ].
  - subst r. rewrite R.
    destruct rl as [how|e'|]; cbn [calls];
      rewrite ?count_app, ?POp, ?Op, ?(count_click_shows is_open) by reflexivity;
      reflexivity.
  - subst r. rewrite R.
    destruct rl as [how|e'|]; cbn [calls];
      rewrite ?count_app, ?PWr, ?(count_click_shows is_imwrite) by reflexivity;
      cbn; lia.
  - intros p rest Hsig Hp Hc. exists e.
    destruct (body_sleep_fails interval out p (mkVars false 0) e Hc Hs)
      as [BE BF].
    pose proof (body_written interval out p (mkVars false 0)
                  (proj1 Hc)) as BW.
    rewrite Hsig, Hp, loop_step in HW by reflexivity.
    destruct (body interval out p (mkVars false 0)) as [[rb vb] tb] eqn:B.
    cbn [fst snd frame_count] in BE, BF, BW. subst rb.
    injection HW as <- <- <-.
    destruct (body_calls _ _ _ _ _ _ _ B) as [BRel [_ [BRep _]]].
    subst r. rewrite R. cbn [ended frames calls exit_status].
    rewrite BF, Hcode.
    split; [exact Hs | split; [reflexivity | split; [reflexivity|]]].
    split; [|split; [|split]].
    + rewrite !written_app, written_preamble, BW, written_click_shows.
      reflexivity.
    + rewrite !count_app, PRel, BRel, (count_click_shows is_release)
        by reflexivity.
      reflexivity.
    + rewrite !filter_app.
      assert (N : forall l, count is_count_report l = 0%nat ->
                            filter is_count_report l = []).
      { intros l. unfold count. now destruct (filter is_count_report l). }
      rewrite (N _ PRep), (N _ BRep),
        (N _ (count_click_shows is_count_report e ltac:(reflexivity))).
      reflexivity.
    + reflexivity.
Qed.

Lemma negative_interval_fails_at_first_wait_witness :
  negative (Finite (-1))
  /\ count is_open
       (calls (run (Scenario.working [Scenario.fine; Scenario.fine]) "0"
                 (Finite (-1)) (Some "out"%string))) = 1%nat
  /\ written
       (calls (run (Scenario.working [Scenario.fine; Scenario.fine]) "0"
                 (Finite (-1)) (Some "out"%string)))
     = [frame_name 0].
Proof.
  assert (N : negative (Finite (-1))) by reflexivity.
  destruct (negative_interval_fails_at_first_wait
              (Scenario.working [Scenario.fine; Scenario.fine]) "0"
              (Finite (-1)) (Some "out"%string) 1200 N eq_refl eq_refl)
    as [_ [Opened [_ First]]].
  split; [exact N | split; [exact Opened|]].
  destruct (First Scenario.fine [Scenario.fine] eq_refl eq_refl) as [e [_ [_ [_ [W _]]]]].
  - repeat split. now exists true.
  - exact W.
Defined.

(** C4 as stated fails: with the interval -1 the device is opened and a
    frame is read, written and counted before anything is refused. *)
Lemma negative_interval_not_refused :
  negative (Finite (-1))
  /\ calls (run (Scenario.working [Scenario.fine; Scenario.fine]) "0"
              (Finite (-1)) (Some "out"%string))
     = [Mkdir "out"; SetSigint; VideoCapture 1200;
        Echo false (RecordingFrom 1200 "out");
        Echo false (CaptureInterval (Finite (-1)));
        Echo false PressCtrlC; LiveStart (0, None);
        Read (Return true);
        Imwrite "out" "frame_000000.jpg" (Return true);
        Update (1, Some "frame_000000.jpg"%string) (Return tt);
        Sleep (Finite (-1))
          (Raise (ValueError "sleep length must be non-negative"));
        Release; Echo false (RecordingStopped 1); LiveStop]
  /\ ~ (forall w device interval output_dir,
          negative interval ->
          count is_open (calls (run w device interval output_dir)) = 0%nat
          /\ count is_read_ok (calls (run w device interval output_dir)) = 0%nat
          /\ count is_imwrite (calls (run w device interval output_dir)) = 0%nat
          /\ exists c, exit_status (run w device interval output_dir) = Some c
                       /\ c <> 0).
Proof.
  split; [reflexivity | split; [reflexivity|]].
  intros H.
  destruct (H (Scenario.working [Scenario.fine; Scenario.fine]) "0"%string
              (Finite (-1)) (Some "out"%string) eq_refl) as [O _].
  discriminate O.
Qed.

(** ** C6 *)

Lemma after_request_le (f : event -> bool) (l : list event) :
  (count f (after_request l) <= count f l)%nat.
Proof.
  induction l as [|e l IH]; [cbn; lia|].
  rewrite count_cons. simpl. destruct (is_stop_request e); lia.
Qed.

Lemma count_epilogue (n : Z) :
  count is_imwrite (epilogue n) = 0%nat
  /\ count is_stop_request (epilogue n) = 0%nat
  /\ count is_saved (epilogue n) = 0%nat
  /\ count is_read_ok (epilogue n) = 0%nat.
Proof. now repeat split. Qed.

(** After the first stop request of a run at most one frame is written. *)
Lemma one_write_after_request (w : world) (device : string)
  (interval : pyfloat) (output_dir : option string) :
  (count is_imwrite (after_request (calls (run w device interval output_dir)))
   <= 1)%nat.
Proof.
  destruct (resolve_device device (cameras w)) as [idx|e] eqn:Hres.
  2:{ rewrite (run_unresolved _ _ _ _ _ Hres). cbn [calls].
      etransitivity; [apply after_request_le|].
      rewrite count_app, (count_click_shows is_imwrite) by reflexivity.
      cbn. lia. }
  destruct (is_opened w) eqn:Hopen.
  2:{ rewrite (run_unopened _ _ _ _ _ Hres Hopen). cbn [calls].
      etransitivity; [apply after_request_le|].
      destruct (sigint_before_loop w); cbn; lia. }
  set (out := output_path_of w output_dir).
  destruct (while_loop interval out (passes w)
              (mkVars (sigint_before_loop w) 0)) as [[rl v] t] eqn:HW.
  pose proof (run_recording w device interval output_dir idx
                Hres Hopen rl v t HW) as R. cbv zeta in R. fold out in R.
  destruct (count_preamble w idx interval out) as [_ [_ [_ [PWr _]]]].
  assert (Tail : forall x,
             count is_imwrite x = 0%nat ->
             (count is_imwrite (after_request (preamble w idx interval out ++ t ++ x))
              <= 1)%nat).
  { intros x Hx. destruct (sigint_before_loop w) eqn:Hsig.
    - rewrite loop_stopped in HW by reflexivity. injection HW as <- <- <-.
      etransitivity; [apply after_request_le|].
      rewrite !count_app, PWr, Hx. cbn. lia.
    - assert (PQ : count is_stop_request (preamble w idx interval out) = 0%nat).
      { unfold preamble. now rewrite Hsig. }
      rewrite (after_request_none _ _ PQ).
      destruct (loop_request interval out (passes w) (mkVars false 0)
                  rl v t eq_refl HW) as [A _].
      destruct (count is_stop_request t) as [|k] eqn:Q.
      + rewrite (after_request_none _ _ Q).
        etransitivity; [apply after_request_le|]. lia.
      + rewrite after_request_some by lia. rewrite count_app. lia. }
  rewrite R. destruct rl as [how|e|]; cbn [calls].
  - apply Tail. reflexivity.
  - rewrite <- !app_assoc. apply Tail.
    rewrite count_app, (count_click_shows is_imwrite) by reflexivity.
    reflexivity.
  - rewrite <- (app_nil_r t). apply Tail. reflexivity.
Qed.

(** C6. The body of the loop does not read the stop flag: only the test
    of the loop does. So in every run at most one frame is written after
    the first stop request, and a run in which a request was made has
    ended. When the operator interrupts during a pass, and the calls of
    the passes up to that one return, the run ends at the test of the
    loop: OperatorStop, exit status 0, whatever passes would follow. A
    request made before the loop is entered ends the run in the same way
    and leaves no frame at all. *)
Theorem stop_observed_at_loop_test (w : world) (device : string)
  (interval : pyfloat) (output_dir : option string) :
  let r := run w device interval output_dir in
  (count is_imwrite (after_request (calls r)) <= 1)%nat
  /\ (forall out p b1 b2 n,
        fst (fst (body interval out p (mkVars b1 n)))
        = fst (fst (body interval out p (mkVars b2 n)))
        /\ snd (body interval out p (mkVars b1 n))
           = snd (body interval out p (mkVars b2 n)))
  /\ (forall device_index,
        resolve_device device (cameras w) = Return device_index ->
        is_opened w = true ->
        (1 <= count is_stop_request (calls r))%nat ->
        ended r <> Pending)
  /\ (forall device_index before p rest,
        resolve_device device (cameras w) = Return device_index ->
        is_opened w = true ->
        time_sleep interval = Return tt ->
        passes w = before ++ p :: rest ->
        Forall completes before ->
        completes p ->
        sigint p <> [] ->
        terminationReason r = Some OperatorStop
        /\ exit_status r = Some 0)
  /\ (forall device_index,
        resolve_device device (cameras w) = Return device_index ->
        is_opened w = true ->
        sigint_before_loop w = true ->
        terminationReason r = Some OperatorStop
        /\ exit_status r = Some 0
        /\ frames r = 0
        /\ count is_imwrite (calls r) = 0%nat).
Proof.
  intros r. split; [apply one_write_after_request|].
  split.
  { intros out p b1 b2 n.
    destruct (body_ignores_flag interval out p b1 b2 n) as [A [B _]].
    now split. }
  set (out := output_path_of w output_dir).
  destruct (while_loop interval out (passes w)
              (mkVars (sigint_before_loop w) 0)) as [[rl v] t] eqn:HW.
  split; [|split].
  - intros idx Hres Hopen Hreq.
    pose proof (run_recording w device interval output_dir idx
                  Hres Hopen rl v t HW) as R. cbv zeta in R. fold out in R.
    subst r. rewrite R in *.
    destruct rl as [how|e|]; cbn [ended calls] in *; try discriminate.
    exfalso. rewrite count_app in Hreq.
    destruct (sigint_before_loop w) eqn:Hsig.
    + rewrite loop_stopped in HW by reflexivity. discriminate HW.
    + destruct (loop_request interval out (passes w) (mkVars false 0)
                  Pending v t eq_refl HW) as [_ [NP _]].
      assert (PQ : count is_stop_request (preamble w idx interval out) = 0%nat).
      { unfold preamble. now rewrite Hsig. }
      apply NP; [lia | reflexivity].
  - intros idx before p rest Hres Hopen Hs Hp Hc Hcp Hi.
    pose proof (loop_interrupted interval out before p rest
                  (mkVars (sigint_before_loop w) 0) Hc Hcp Hi Hs) as G.
    rewrite <- Hp, HW in G. cbn [fst] in G. subst rl.
    pose proof (run_recording w device interval output_dir idx
                  Hres Hopen _ v t HW) as R. cbv zeta in R. fold out in R.
    subst r. rewrite R. split; reflexivity.
  - intros idx Hres Hopen Hsig.
    rewrite Hsig, loop_stopped in HW by reflexivity. injection HW as <- <- <-.
    assert (HW' : while_loop interval out (passes w)
                    (mkVars (sigint_before_loop w) 0)
                  = (Val ConditionFalse, mkVars true 0, []))
      by (rewrite Hsig; now apply loop_stopped).
    pose proof (run_recording w device interval output_dir idx
                  Hres Hopen _ _ _ HW') as R. cbv zeta in R. fold out in R.
    subst r. rewrite R. cbn [frames calls frame_count].
    destruct (count_preamble w idx interval out) as [_ [_ [_ [PWr _]]]].
    split; [reflexivity | split; [reflexivity | split; [reflexivity|]]].
    rewrite !count_app, PWr. reflexivity.
Qed.

Lemma stop_observed_at_loop_test_witness :
  terminationReason
    (run (Scenario.working
            [Scenario.fine; Scenario.interrupted; Scenario.read_fails])
       "0" (Finite 1) None) = Some OperatorStop
  /\ written
       (after_request
          (calls (run (Scenario.working
                         [Scenario.fine; Scenario.interrupted;
                          Scenario.read_fails])
                    "0" (Finite 1) None)))
     = [frame_name 1]
  /\ terminationReason
       (run (Scenario.working
               [Scenario.fine; Scenario.interrupted_asleep; Scenario.fine])
          "0" (Finite 1) None) = Some OperatorStop
  /\ frames (run Scenario.interrupted_at_once "0" (Finite 1) None) = 0.
Proof.
  assert (C : forall p, In p [Scenario.fine; Scenario.interrupted;
                              Scenario.interrupted_asleep] -> completes p).
  { intros p [<- | [<- | [<- | []]]]; repeat split; now exists true. }
  split; [|split; [reflexivity | split]].
  - destruct (stop_observed_at_loop_test
                (Scenario.working
                   [Scenario.fine; Scenario.interrupted; Scenario.read_fails])
                "0" (Finite 1) None)
      as [_ [_ [_ [Stop _]]]].
    destruct (Stop 1200 [Scenario.fine] Scenario.interrupted
                [Scenario.read_fails] eq_refl eq_refl eq_refl eq_refl)
      as [Reason _].
    + repeat constructor. apply C. cbn. tauto.
    + apply C. cbn. tauto.
    + discriminate.
    + exact Reason.
  - destruct (stop_observed_at_loop_test
                (Scenario.working
                   [Scenario.fine; Scenario.interrupted_asleep; Scenario.fine])
                "0" (Finite 1) None)
      as [_ [_ [_ [Stop _]]]].
    destruct (Stop 1200 [Scenario.fine] Scenario.interrupted_asleep
                [Scenario.fine] eq_refl eq_refl eq_refl eq_refl)
      as [Reason _].
    + repeat constructor. apply C. cbn. tauto.
    + apply C. cbn. tauto.
    + discriminate.
    + exact Reason.
  - destruct (stop_observed_at_loop_test Scenario.interrupted_at_once
                "0" (Finite 1) None)
      as [_ [_ [_ [_ Early]]]].
    destruct (Early 1200 eq_refl eq_refl eq_refl) as [_ [_ [Frames _]]].
    exact Frames.
Defined.

(** ** C9 *)

Lemma filter_nothing (f : event -> bool) (l : list event) :
  count f l = 0%nat -> filter f l = [].
Proof. unfold count. now destruct (filter f l). Qed.

(** The counter of a run is the number of writes that returned, and
    every frame read was handed to the writer. *)
Lemma run_counts (w : world) (device : string) (interval : pyfloat)
  (output_dir : option string) :
  frames (run w device interval output_dir)
  = Z.of_nat (count is_saved (calls (run w device interval output_dir)))
  /\ count is_read_ok (calls (run w device interval output_dir))
     = count is_imwrite (calls (run w device interval output_dir)).
Proof.
  destruct (resolve_device device (cameras w)) as [idx|e] eqn:Hres.
  2:{ rewrite (run_unresolved _ _ _ _ _ Hres). cbn [frames calls].
      rewrite !count_app, (count_click_shows is_saved),
        (count_click_shows is_read_ok), (count_click_shows is_imwrite)
        by reflexivity.
      now split. }
  destruct (is_opened w) eqn:Hopen.
  2:{ rewrite (run_unopened _ _ _ _ _ Hres Hopen). cbn [frames calls].
      destruct (sigint_before_loop w); now split. }
  set (out := output_path_of w output_dir).
  destruct (while_loop interval out (passes w)
              (mkVars (sigint_before_loop w) 0)) as [[rl v] t] eqn:HW.
  pose proof (run_recording w device interval output_dir idx
                Hres Hopen rl v t HW) as R. cbv zeta in R. fold out in R.
  destruct (loop_counts _ _ _ _ _ _ _ HW) as [F Rd]. cbn [frame_count] in F.
  destruct (count_preamble w idx interval out)
    as [_ [_ [_ [PWr [PSv PRd]]]]].
  rewrite R.
  destruct rl as [how|e|]; cbn [frames calls];
    rewrite !count_app, ?PWr, ?PSv, ?PRd,
      ?(count_click_shows is_saved), ?(count_click_shows is_read_ok),
      ?(count_click_shows is_imwrite) by reflexivity;
    cbn; split; lia.
Qed.

(** C9, as the program has it. The count of frames is reported, once and
    with the number of frames written, on every way out of the loop: the
    flag seen by the test, a failed read, an exception in the body. The
    runs that end before the loop, because no device is found or the
    device cannot be opened, report their error and no count. *)
Theorem count_reported_after_loop (w : world) (device : string)
  (interval : pyfloat) (output_dir : option string) :
  let r := run w device interval output_dir in
  (forall device_index,
      resolve_device device (cameras w) = Return device_index ->
      is_opened w = true ->
      ended r <> Pending ->
      filter is_count_report (calls r) = [Echo false (RecordingStopped (frames r))]
      /\ frames r = Z.of_nat (count is_saved (calls r)))
  /\ (forall e,
        resolve_device device (cameras w) = Raise e ->
        ended r = Exc e /\ count is_count_report (calls r) = 0%nat)
  /\ (forall device_index,
        resolve_device device (cameras w) = Return device_index ->
        is_opened w = false ->
        ended r = Exc (SystemExit 1)
        /\ count is_count_report (calls r) = 0%nat).
Proof.
  intros r. split; [|split].
  - intros idx Hres Hopen Hend.
    split; [|apply run_counts].
    set (out := output_path_of w output_dir).
    destruct (while_loop interval out (passes w)
                (mkVars (sigint_before_loop w) 0)) as [[rl v] t] eqn:HW.
    pose proof (run_recording w device interval output_dir idx
                  Hres Hopen rl v t HW) as R. cbv zeta in R. fold out in R.
    destruct (loop_calls _ _ _ _ _ _ _ HW) as [_ [_ Rep]].
    destruct (count_preamble w idx interval out) as [_ [_ [PRep _]]].
    subst r. rewrite R in *.
    destruct rl as [how|e|]; cbn [ended frames calls] in *;
      [ | | now elim Hend ];
      rewrite !filter_app, (filter_nothing _ _ PRep), (filter_nothing _ _ Rep),
        ?(filter_nothing _ _ (count_click_shows is_count_report e
                                ltac:(reflexivity)));
      reflexivity.
  - intros e Hres. subst r. rewrite (run_unresolved _ _ _ _ _ Hres).
    cbn [ended calls]. split; [reflexivity|].
    rewrite count_app, (count_click_shows is_count_report) by reflexivity.
    reflexivity.
  - intros idx Hres Hopen. subst r.
    rewrite (run_unopened _ _ _ _ _ Hres Hopen). cbn [ended calls].
    split; [reflexivity|]. now destruct (sigint_before_loop w).
Qed.

Lemma count_reported_after_loop_witness :
  filter is_count_report
    (calls (run Scenario.fails_on_fifth "0" (Finite 1) None))
  = [Echo false (RecordingStopped 4)]
  /\ count is_count_report
       (calls (run Scenario.no_cameras "0" (Finite 1) None)) = 0%nat
  /\ count is_count_report
       (calls (run Scenario.cannot_open "0" (Finite 1) None)) = 0%nat.
Proof.
  split; [|split].
  - destruct (count_reported_after_loop Scenario.fails_on_fifth "0" (Finite 1)
                None) as [Loop _].
    destruct (Loop 1200 eq_refl eq_refl ltac:(discriminate)) as [Rep _].
    exact Rep.
  - destruct (count_reported_after_loop Scenario.no_cameras "0" (Finite 1)
                None) as [_ [Unresolved _]].
    destruct (Unresolved (ClickException msg_no_cameras) eq_refl) as [_ Rep].
    exact Rep.
  - destruct (count_reported_after_loop Scenario.cannot_open "0" (Finite 1)
                None) as [_ [_ Unopened]].
    destruct (Unopened 1200 eq_refl eq_refl) as [_ Rep].
    exact Rep.
Defined.

(** C9 as stated fails: with no camera, and with a device that cannot be
    opened, the run ends and no count of frames is printed. *)
Lemma count_not_reported_before_loop :
  calls (run Scenario.no_cameras "0" (Finite 1) (Some "out"%string))
  = [Mkdir "out"; Echo true (ClickError "No cameras found.")]
  /\ exit_status (run Scenario.no_cameras "0" (Finite 1) (Some "out"%string))
     = Some 1
  /\ calls (run Scenario.cannot_open "0" (Finite 1) (Some "out"%string))
     = [Mkdir "out"; SetSigint; VideoCapture 1200;
        Echo true (CouldNotOpen 1200)]
  /\ exit_status (run Scenario.cannot_open "0" (Finite 1) (Some "out"%string))
     = Some 1
  /\ ~ (forall w device interval output_dir,
          ended (run w device interval output_dir) <> Pending ->
          exists n, In (Echo false (RecordingStopped n))
                      (calls (run w device interval output_dir))).
Proof.
  split; [reflexivity | split; [reflexivity | split; [reflexivity |
    split; [reflexivity|]]]].
  intros H.
  destruct (H Scenario.no_cameras "0"%string (Finite 1) (Some "out"%string)
              ltac:(discriminate)) as [n [E | [E | []]]];
    discriminate E.
Qed.

(** *** What a write returns *)

Lemma forget_preamble (w : world) (idx : Z) (interval : pyfloat) (out : string) :
  map forget_written (preamble w idx interval out)
  = preamble (writes_succeed w) idx interval out.
Proof. unfold preamble. cbn. now destruct (sigint_before_loop w). Qed.

Lemma forget_click_shows (e : exn) :
  map forget_written (click_shows e) = click_shows e.
Proof. now destruct e. Qed.

(** What a write returns is not looked at. A run in which some writes
    return failure ends in the same way, with the same exit status, the
    same count and the same calls (but for what those writes returned)
    as the run in which they return success; a write that raises is
    the same in both. *)
Lemma returned_write_ignored (w : world) (device : string)
  (interval : pyfloat) (output_dir : option string) :
  let r := run w device interval output_dir in
  let r' := run (writes_succeed w) device interval output_dir in
  ended r = ended r'
  /\ terminationReason r = terminationReason r'
  /\ exit_status r = exit_status r'
  /\ frames r = frames r'
  /\ map forget_written (calls r) = calls r'
  /\ count is_read_ok (calls r) = count is_imwrite (calls r)
  /\ frames r = Z.of_nat (count is_saved (calls r)).
Proof.
  intros r r'.
  assert (Same : ended r = ended r' /\ exit_status r = exit_status r'
                 /\ frames r = frames r'
                 /\ map forget_written (calls r) = calls r').
  { subst r r'.
    destruct (resolve_device device (cameras w)) as [idx|e] eqn:Hres.
    2:{ rewrite (run_unresolved w _ _ _ _ Hres),
          (run_unresolved (writes_succeed w) _ _ _ _ Hres).
        cbn [ended exit_status frames calls].
        rewrite map_app, forget_click_shows. now repeat split. }
    destruct (is_opened w) eqn:Hopen.
    2:{ rewrite (run_unopened w _ _ _ _ Hres Hopen),
          (run_unopened (writes_succeed w) _ _ _ _ Hres Hopen).
        cbn [ended exit_status frames calls sigint_before_loop writes_succeed].
        destruct (sigint_before_loop w); now repeat split. }
    set (out := output_path_of w output_dir).
    destruct (while_loop interval out (passes w)
                (mkVars (sigint_before_loop w) 0)) as [[rl v] t] eqn:HW.
    pose proof (run_recording w device interval output_dir idx
                  Hres Hopen rl v t HW) as R. cbv zeta in R. fold out in R.
    assert (HW' : while_loop interval
                    (output_path_of (writes_succeed w) output_dir)
                    (passes (writes_succeed w))
                    (mkVars (sigint_before_loop (writes_succeed w)) 0)
                  = (rl, v, map forget_written t)).
    { cbn [passes sigint_before_loop writes_succeed].
      change (output_path_of (writes_succeed w) output_dir) with out.
      rewrite loop_write_succeeds, HW. reflexivity. }
    pose proof (run_recording (writes_succeed w) device interval output_dir idx
                  Hres Hopen rl v _ HW') as R'. cbv zeta in R'.
    change (output_path_of (writes_succeed w) output_dir) with out in R'.
    rewrite R, R'.
    destruct rl as [how|e|]; cbn [ended exit_status frames calls];
      rewrite !map_app, ?forget_preamble, ?forget_click_shows;
      now repeat split. }
  destruct Same as [E [X [F C]]].
  split; [exact E|]. split; [unfold terminationReason; now rewrite E|].
  split; [exact X|]. split; [exact F|]. split; [exact C|].
  destruct (run_counts w device interval output_dir) as [Fr Rd].
  split; [exact Rd | exact Fr].
Qed.

End SessionFacts.

(** ** Examples *)

Module Examples.
Import Py Resolver Session.

(** What [int] accepts and rejects. *)
Example int_accepts :
  int "5" = Some 5 /\ int " 5 " = Some 5 /\ int "-5" = Some (-5)
  /\ int "+5" = Some 5 /\ int "007" = Some 7 /\ int "5_0" = Some 50.
Proof. now repeat split. Qed.

Example int_rejects :
  int "" = None /\ int "  " = None /\ int "_5" = None /\ int "5_" = None
  /\ int "5__0" = None /\ int "- 5" = None /\ int "+" = None
  /\ int "0x10" = None /\ int "5.0" = None /\ int "anker" = None.
Proof. now repeat split. Qed.

Example format_06d_samples :
  format_06d 0 = "000000"%string /\ format_06d 7 = "000007"%string
  /\ format_06d 999999 = "999999"%string
  /\ format_06d 1234567 = "1234567"%string
  /\ format_06d (-5) = "-00005"%string.
Proof. now repeat split. Qed.

Example lower_sample :
  lower "Anker PowerConf C200" = "anker powerconf c200"%string.
Proof. reflexivity. Qed.

(** The scenario of the spec. *)
Example scenario_resolution :
  resolve_device "0" Scenario.catalog = Return 1200
  /\ resolve_device "55" Scenario.catalog = Return 55
  /\ resolve_device "facetime" Scenario.catalog = Return 55
  /\ resolve_device "anker" Scenario.catalog = Return 1200.
Proof. now repeat split. Qed.

(** A write that reports failure is counted like any other, and the
    loop goes on. *)
Example failed_write_is_counted :
  calls (run (Scenario.working [Scenario.write_fails; Scenario.read_fails])
           "0" (Finite 0) (Some "out"%string))
  = [Mkdir "out"; SetSigint; VideoCapture 1200;
     Echo false (RecordingFrom 1200 "out");
     Echo false (CaptureInterval (Finite 0));
     Echo false PressCtrlC; LiveStart (0, None);
     Read (Return true);
     Imwrite "out" "frame_000000.jpg" (Return false);
     Update (1, Some "frame_000000.jpg"%string) (Return tt);
     Sleep (Finite 0) (Return tt);
     Read (Return false); Echo true FailedToCapture;
     Release; Echo false (RecordingStopped 1); LiveStop].
Proof. reflexivity. Qed.

End Examples.

(** ** Numbers as text and back *)

Module TextFacts.
Import Py PyFacts FormatFacts Text.

Lemma digit_char_is_digit (d : Z) :
  0 <= d <= 9 ->
  is_digit (digit_char d) = true /\ digit_value (digit_char d) = d
  /\ is_space (digit_char d) = false.
Proof.
  intros H. unfold is_digit, digit_value, is_space.
  rewrite (code_digit_char d H). split; [|split]; lia.
Qed.

(** The digits of [n], read back after [acc], give [acc] shifted by
    their number, plus [n]. *)
Lemma parse_dec_digits (fuel : nat) :
  forall n rest prev acc cnt,
    0 <= n < 10 ^ Z.of_nat (S fuel) ->
    parse_digits (dec_digits (S fuel) n ++ rest) prev acc cnt
    = parse_digits rest true
        (acc * 10 ^ Z.of_nat (String.length (dec_digits (S fuel) n)) + n)
        (cnt + Z.of_nat (String.length (dec_digits (S fuel) n))).
Proof.
  induction fuel as [|fuel IH]; intros n rest prev acc cnt Hn.
  - change (10 ^ Z.of_nat 1) with 10 in Hn. cbn [dec_digits].
    destruct (Z.ltb_spec n 10); [|lia].
    destruct (digit_char_is_digit n ltac:(lia)) as [D [V _]].
    cbn [append String.length parse_digits]. rewrite D, V.
    f_equal; change (10 ^ Z.of_nat 1) with 10; lia.
  - remember (S fuel) as f eqn:Ef. cbn [dec_digits].
    destruct (Z.ltb_spec n 10) as [Hlt | Hge].
    + destruct (digit_char_is_digit n ltac:(lia)) as [D [V _]].
      cbn [append String.length parse_digits]. rewrite D, V.
      f_equal; change (10 ^ Z.of_nat 1) with 10; lia.
    + rewrite append_assoc. subst f.
      rewrite Nat2Z.inj_succ, Z.pow_succ_r in Hn by lia.
      rewrite IH
        by (split; [apply Z.div_pos | apply Z.div_lt_upper_bound]; lia).
      pose proof (Z.mod_pos_bound n 10 ltac:(lia)) as Hm.
      destruct (digit_char_is_digit (n mod 10) ltac:(lia)) as [D [V _]].
      cbn [append parse_digits]. rewrite D, V.
      rewrite length_append. cbn [String.length].
      rewrite Nat2Z.inj_add. change (Z.of_nat 1) with 1.
      rewrite Z.pow_add_r by lia. change (10 ^ 1) with 10.
      pose proof (Z.div_mod n 10 ltac:(lia)) as Hd.
      f_equal; lia.
Qed.

(** The number of digits written: at least one, and no more than [n]
    needs. *)
Lemma dec_digits_length (fuel : nat) :
  forall n w,
    0 <= n < 10 ^ Z.of_nat w -> (0 < w)%nat ->
    (1 <= String.length (dec_digits (S fuel) n) <= w)%nat.
Proof.
  induction fuel as [|fuel IH]; intros n w Hn Hw.
  - cbn [dec_digits]. destruct (Z.ltb_spec n 10); cbn; lia.
  - remember (S fuel) as f eqn:Ef. cbn [dec_digits].
    destruct (Z.ltb_spec n 10) as [Hlt | Hge]; [cbn; lia|].
    rewrite length_append. cbn [String.length]. subst f.
    destruct w as [|w]; [lia|].
    rewrite Nat2Z.inj_succ, Z.pow_succ_r in Hn by lia.
    assert (Hw1 : (0 < w)%nat) by (destruct w; [simpl in Hn; lia | lia]).
    specialize (IH (n / 10) w
                  ltac:(split; [apply Z.div_pos | apply Z.div_lt_upper_bound];
                        lia) Hw1).
    lia.
Qed.

(** With enough fuel, a number of at least [10 ^ k] gets more than [k]
    digits. *)
Lemma dec_digits_long (fuel : nat) :
  forall n k,
    10 ^ Z.of_nat k <= n < 10 ^ Z.of_nat (S fuel) ->
    (k < String.length (dec_digits (S fuel) n))%nat.
Proof.
  induction fuel as [|fuel IH]; intros n k Hn.
  - change (10 ^ Z.of_nat 1) with 10 in Hn. cbn [dec_digits].
    destruct (Z.ltb_spec n 10); [|lia]. cbn.
    destruct k as [|k]; [lia|].
    rewrite Nat2Z.inj_succ, Z.pow_succ_r in Hn by lia.
    pose proof (Z.pow_pos_nonneg 10 (Z.of_nat k) ltac:(lia) ltac:(lia)). lia.
  - remember (S fuel) as f eqn:Ef. cbn [dec_digits].
    destruct (Z.ltb_spec n 10) as [Hlt | Hge].
    + cbn. destruct k as [|k]; [lia|].
      rewrite Nat2Z.inj_succ, Z.pow_succ_r in Hn by lia.
      pose proof (Z.pow_pos_nonneg 10 (Z.of_nat k) ltac:(lia) ltac:(lia)). lia.
    + rewrite length_append. cbn [String.length]. subst f.
      destruct k as [|k]; [lia|].
      rewrite (Nat2Z.inj_succ (S fuel)), (Nat2Z.inj_succ k) in Hn.
      rewrite !Z.pow_succ_r in Hn by lia.
      specialize (IH (n / 10) k).
      assert (10 ^ Z.of_nat k <= n / 10 < 10 ^ Z.of_nat (S fuel)).
      { split; [apply Z.div_le_lower_bound | apply Z.div_lt_upper_bound]; lia. }
      specialize (IH H). lia.
Qed.

Lemma dec_digits_chars (fuel : nat) :
  forall n,
    0 <= n ->
    all_chars (fun c => is_digit c && negb (is_space c)) (dec_digits fuel n)
    = true.
Proof.
  induction fuel as [|fuel IH]; intros n Hn; [reflexivity|].
  cbn [dec_digits].
  assert (A : forall a b, all_chars (fun c => is_digit c && negb (is_space c)) a = true ->
                          all_chars (fun c => is_digit c && negb (is_space c)) b = true ->
                          all_chars (fun c => is_digit c && negb (is_space c))
                            (a ++ b) = true).
  { induction a as [|x a IHa]; intros b Ha Hb; [exact Hb|].
    cbn in *. apply andb_true_iff in Ha. destruct Ha as [Hx Ha].
    rewrite Hx. now apply IHa. }
  destruct (Z.ltb_spec n 10) as [Hlt | Hge].
  - destruct (digit_char_is_digit n ltac:(lia)) as [D [_ S]].
    cbn. now rewrite D, S.
  - apply A; [apply IH; apply Z.div_pos; lia|].
    pose proof (Z.mod_pos_bound n 10 ltac:(lia)).
    destruct (digit_char_is_digit (n mod 10) ltac:(lia)) as [D [_ S]].
    cbn. now rewrite D, S.
Qed.

Lemma plain_append (a b : string) :
  all_chars plain (a ++ b) = (all_chars plain a && all_chars plain b)%bool.
Proof.
  induction a as [|x a IH]; [reflexivity|].
  cbn. now rewrite IH, andb_assoc.
Qed.

Lemma plain_zeros (k : nat) : all_chars plain (zeros k) = true.
Proof. induction k as [|k IH]; [reflexivity | cbn; exact IH]. Qed.

Lemma plain_dec_digits (fuel : nat) (n : Z) :
  0 <= n -> all_chars plain (dec_digits fuel n) = true.
Proof. apply dec_digits_chars. Qed.

Lemma lstrip_plain (s : string) : all_chars plain s = true -> lstrip s = s.
Proof.
  destruct s as [|c s]; [reflexivity|]. cbn. unfold plain at 1.
  intros H. apply andb_true_iff in H. destruct H as [H _].
  apply andb_true_iff in H. destruct H as [_ H].
  now destruct (is_space c).
Qed.

Lemma rstrip_plain (s : string) : all_chars plain s = true -> rstrip s = s.
Proof.
  induction s as [|c s IH]; [reflexivity|]. cbn. unfold plain at 1.
  intros H. apply andb_true_iff in H. destruct H as [Hc Hs].
  apply andb_true_iff in Hc. destruct Hc as [_ Hc].
  rewrite (IH Hs). destruct s; [|reflexivity].
  now destruct (is_space c).
Qed.

(** What [int] makes of a text of digits, and of one after a minus
    sign. *)
Lemma int_plain (s : string) :
  all_chars plain s = true ->
  int s = match parse_digits s false 0 0 with
          | Some (v, count) =>
              if count <=? int_max_str_digits then Some v else None
          | None => None
          end.
Proof.
  intros H. unfold int. rewrite (lstrip_plain s H), (rstrip_plain s H).
  destruct s as [|c r]; [reflexivity|].
  cbn [all_chars] in H. apply andb_true_iff in H. destruct H as [H _].
  unfold plain in H. apply andb_true_iff in H. destruct H as [H _].
  destruct c as [[] [] [] [] [] [] [] []]; try discriminate H;
    destruct (parse_digits _ false 0 0) as [[v count]|]; reflexivity.
Qed.

Lemma int_minus_plain (s : string) :
  all_chars plain s = true ->
  int (String "-" s)
  = match parse_digits s false 0 0 with
    | Some (v, count) =>
        if count <=? int_max_str_digits then Some (- v) else None
    | None => None
    end.
Proof.
  intros H. unfold int. cbn [lstrip]. change (is_space "-") with false.
  cbn [rstrip]. rewrite (rstrip_plain s H). change (is_space "-") with false.
  destruct s; reflexivity.
Qed.

Lemma parse_zeros (k : nat) :
  forall rest prev cnt,
    parse_digits (zeros k ++ rest) prev 0 cnt
    = parse_digits rest (prev || (0 <? Z.of_nat k))%bool 0 (cnt + Z.of_nat k).
Proof.
  induction k as [|k IH]; intros rest prev cnt.
  - cbn. now rewrite orb_false_r, Z.add_0_r.
  - cbn [zeros append parse_digits]. change (is_digit "0") with true.
    cbn iota. change (0 * 10 + digit_value "0") with 0. rewrite IH.
    replace (prev || (0 <? Z.of_nat (S k)))%bool with true
      by (symmetry; apply orb_true_iff; right; apply Z.ltb_lt; lia).
    cbn [orb]. f_equal. lia.
Qed.

(** Reading back the digits of a number, padded with zeros or not. *)
Lemma parse_padded (width : nat) (n : Z) :
  0 <= n ->
  parse_digits (zfill width (str_nat n)) false 0 0
  = Some (n, Z.of_nat (Nat.max width (String.length (str_nat n)))).
Proof.
  intros Hn. unfold zfill. rewrite parse_zeros.
  unfold str_nat.
  pose proof (str_nat_fuel n Hn) as Hf.
  set (fuel := Z.to_nat (Z.log2 n)) in *.
  rewrite <- (append_empty_r (dec_digits (S fuel) n)) at 1.
  rewrite parse_dec_digits by lia.
  cbn [parse_digits]. f_equal. f_equal; lia.
Qed.

Lemma str_nat_short (n : Z) :
  0 <= n < 10 ^ int_max_str_digits ->
  (1 <= String.length (str_nat n) <= 4300)%nat.
Proof.
  intros Hn. unfold str_nat. apply dec_digits_length; [|lia].
  exact Hn.
Qed.

Lemma zfill_nothing (s : string) : zfill 0 s = s.
Proof. unfold zfill. now rewrite Nat.sub_0_l. Qed.

Lemma plain_zfill (width : nat) (n : Z) :
  0 <= n -> all_chars plain (zfill width (str_nat n)) = true.
Proof.
  intros Hn. unfold zfill, str_nat.
  now rewrite plain_append, plain_zeros, plain_dec_digits.
Qed.

Lemma padded_short (width : nat) (n : Z) :
  (width <= 4300)%nat ->
  0 <= n < 10 ^ int_max_str_digits ->
  (Z.of_nat (Nat.max width (String.length (str_nat n))) <=? int_max_str_digits)
  = true.
Proof.
  intros Hw Hn. pose proof (str_nat_short n Hn).
  apply Z.leb_le. unfold int_max_str_digits. lia.
Qed.

(** [int(str(n))] is [n], for every integer whose text [int] takes
    (fewer than 4301 digits). *)
Lemma int_of_str_int (n : Z) :
  Z.abs n < 10 ^ int_max_str_digits ->
  int (str_int n) = Some n.
Proof.
  intros Hn. unfold str_int. destruct (Z.ltb_spec n 0) as [Neg | Pos].
  - rewrite int_minus_plain
      by (rewrite <- (zfill_nothing (str_nat (- n))); apply plain_zfill; lia).
    rewrite <- (zfill_nothing (str_nat (- n))), parse_padded by lia.
    rewrite (padded_short 0) by lia. f_equal. lia.
  - rewrite int_plain
      by (rewrite <- (zfill_nothing (str_nat n)); apply plain_zfill; lia).
    rewrite <- (zfill_nothing (str_nat n)), parse_padded by lia.
    rewrite (padded_short 0) by lia. reflexivity.
Qed.

(** The number in a frame name reads back: [int] of the padded field is
    the frame number, beyond six digits too, where the field grows instead
    of being cut. *)
Lemma int_of_format_06d (n : Z) :
  Z.abs n < 10 ^ int_max_str_digits ->
  int (format_06d n) = Some n.
Proof.
  intros Hn. unfold format_06d. destruct (Z.ltb_spec n 0) as [Neg | Pos].
  - rewrite int_minus_plain by (apply plain_zfill; lia).
    rewrite parse_padded by lia.
    rewrite (padded_short 5) by lia. f_equal. lia.
  - rewrite int_plain by (apply plain_zfill; lia).
    rewrite parse_padded by lia.
    rewrite (padded_short 6) by lia. reflexivity.
Qed.

End TextFacts.

(** ** The names of the frames of a run *)

Module NameFacts.
Import Py PyFacts FormatFacts Text TextFacts Resolver Session SessionFacts.

Lemma append_cancel_r (s : string) :
  forall a b, (a ++ s = b ++ s)%string -> a = b.
Proof.
  assert (L : forall c a, (String c a ++ s)%string <> s).
  { intros c a H. apply (f_equal String.length) in H.
    cbn in H. rewrite length_append in H. lia. }
  induction a as [|x a IH]; intros [|y b] H; cbn in H.
  - reflexivity.
  - symmetry in H. now apply L in H.
  - now apply L in H.
  - injection H as -> H. now rewrite (IH b H).
Qed.

Lemma frame_name_differs (a b : Z) :
  Z.abs a < 10 ^ int_max_str_digits ->
  Z.abs b < 10 ^ int_max_str_digits ->
  a <> b ->
  frame_name a <> frame_name b.
Proof.
  intros Ha Hb Hab H. apply Hab. unfold frame_name in H. cbn in H.
  injection H as H. apply append_cancel_r in H.
  apply (f_equal int) in H.
  rewrite (int_of_format_06d a Ha), (int_of_format_06d b Hb) in H.
  now injection H.
Qed.

(** X8. Frame numbers that differ have names that differ, and the number
    reads back from the name: beyond six digits the field grows, it is
    never cut. *)
Theorem frame_name_injective (a b : Z) :
  Z.abs a < 10 ^ int_max_str_digits ->
  Z.abs b < 10 ^ int_max_str_digits ->
  int (format_06d a) = Some a
  /\ (a <> b -> frame_name a <> frame_name b).
Proof.
  intros Ha Hb. split; [now apply int_of_format_06d|].
  now apply frame_name_differs.
Qed.

Lemma frame_name_injective_witness :
  int (format_06d 1000007) = Some 1000007
  /\ frame_name 1000007 <> frame_name 7.
Proof.
  destruct (frame_name_injective 1000007 7) as [Back Differ].
  - apply Z.lt_le_trans with (10 ^ 7); [reflexivity|].
    apply Z.pow_le_mono_r; unfold int_max_str_digits; lia.
  - apply Z.lt_le_trans with (10 ^ 7); [reflexivity|].
    apply Z.pow_le_mono_r; unfold int_max_str_digits; lia.
  - split; [exact Back | apply Differ; discriminate].
Defined.

Lemma numbers_app (k1 k2 : nat) :
  forall n, numbers n (k1 + k2) = numbers n k1 ++ numbers (n + Z.of_nat k1) k2.
Proof.
  induction k1 as [|k1 IH]; intros n.
  - cbn. now rewrite Z.add_0_r.
  - cbn [numbers Nat.add app]. rewrite IH.
    now replace (n + Z.of_nat (S k1)) with (n + 1 + Z.of_nat k1) by lia.
Qed.

Lemma in_numbers (k : nat) :
  forall n x, In x (numbers n k) <-> n <= x < n + Z.of_nat k.
Proof.
  induction k as [|k IH]; intros n x; cbn [numbers In].
  - lia.
  - rewrite IH. lia.
Qed.

(** One pass writes at most one file, under the name of the counter,
    and when it goes on the counter has moved by the number of files
    written. *)
Lemma body_names (interval : pyfloat) (out : string) (p : pass) (v : vars) :
  forall r v' t,
    body interval out p v = (r, v', t) ->
    written t = map frame_name (numbers (frame_count v) (count is_imwrite t))
    /\ (r = Val None ->
        frame_count v' = frame_count v + Z.of_nat (count is_imwrite t)).
Proof.
  intros r v' t. open_body p interval; intros [= <- <- <-]; cbn;
    split; try reflexivity; intros; try discriminate; lia.
Qed.

Lemma loop_names (interval : pyfloat) (out : string) (ps : list pass) :
  forall v r v' t,
    while_loop interval out ps v = (r, v', t) ->
    written t = map frame_name (numbers (frame_count v) (count is_imwrite t)).
Proof.
  induction ps as [|p ps IH]; intros v r v' t H.
  - simpl in H. destruct (stop_recording v); now injection H as <- <- <-.
  - destruct (stop_recording v) eqn:S.
    + rewrite loop_stopped in H by exact S. now injection H as <- <- <-.
    + rewrite loop_step in H by exact S. open_loop H interval out p ps v;
        destruct (body_names _ _ _ _ _ _ _ B) as [N F];
        injection H as <- <- <-; try exact N.
      rewrite written_app, count_app, numbers_app, map_app, N.
      f_equal. rewrite (IH _ _ _ _ W). now rewrite (F eq_refl).
Qed.

(** The files of a run are numbered from 0 on, without a gap, in the
    order in which they are written. *)
Lemma run_names (w : world) (device : string) (interval : pyfloat)
  (output_dir : option string) :
  written (calls (run w device interval output_dir))
  = map frame_name
      (numbers 0 (count is_imwrite (calls (run w device interval output_dir)))).
Proof.
  destruct (resolve_device device (cameras w)) as [idx|e] eqn:Hres.
  2:{ rewrite (run_unresolved _ _ _ _ _ Hres). cbn [calls].
      rewrite written_app, written_click_shows, count_app,
        (count_click_shows is_imwrite) by reflexivity.
      reflexivity. }
  destruct (is_opened w) eqn:Hopen.
  2:{ rewrite (run_unopened _ _ _ _ _ Hres Hopen). cbn [calls].
      now destruct (sigint_before_loop w). }
  set (out := output_path_of w output_dir).
  destruct (while_loop interval out (passes w)
              (mkVars (sigint_before_loop w) 0)) as [[rl v] t] eqn:HW.
  pose proof (run_recording w device interval output_dir idx
                Hres Hopen rl v t HW) as R. cbv zeta in R. fold out in R.
  pose proof (loop_names _ _ _ _ _ _ _ HW) as N. cbn [frame_count] in N.
  destruct (count_preamble w idx interval out) as [_ [_ [_ [PWr _]]]].
  rewrite R.
  destruct rl as [how|e|]; cbn [calls];
    rewrite !written_app, ?written_preamble, ?written_click_shows,
      !count_app, ?PWr, ?(count_click_shows is_imwrite) by reflexivity;
    cbn [written epilogue app count filter is_imwrite List.length];
    rewrite ?app_nil_r, ?Nat.add_0_r; exact N.
Qed.

Lemma frame_name_lt (i j : Z) :
  0 <= i -> i < j -> j <= 999999 -> str_lt (frame_name i) (frame_name j).
Proof.
  intros Hi Hij Hj. unfold str_lt, frame_name.
  rewrite (format_06d_fixed i), (format_06d_fixed j) by lia.
  rewrite compare_common_prefix.
  rewrite compare_same_length by now rewrite !fixed_width_length.
  rewrite fixed_width_compare by (change (10 ^ Z.of_nat 6) with 1000000; lia).
  now replace (i ?= j) with Lt by (symmetry; apply Z.compare_lt_iff; lia).
Qed.

Lemma sorted_numbers {A : Type} (R : A -> A -> Prop) (f : Z -> A) (k : nat) :
  forall n,
    (forall i j, n <= i -> i < j -> j < n + Z.of_nat k -> R (f i) (f j)) ->
    StronglySorted R (map f (numbers n k)).
Proof.
  induction k as [|k IH]; intros n H; cbn [numbers map]; constructor.
  - apply IH. intros i j Hi Hij Hj. apply H; lia.
  - apply Forall_forall. intros x Hx. apply in_map_iff in Hx.
    destruct Hx as [j [<- Hj]]. apply in_numbers in Hj. apply H; lia.
Qed.

Lemma nodup_numbers {A : Type} (f : Z -> A) (k : nat) :
  forall n,
    (forall i j, n <= i -> i < j -> j < n + Z.of_nat k -> f i <> f j) ->
    NoDup (map f (numbers n k)).
Proof.
  induction k as [|k IH]; intros n H; cbn [numbers map]; constructor.
  - intros Hx. apply in_map_iff in Hx. destruct Hx as [j [E Hj]].
    apply in_numbers in Hj. symmetry in E. revert E. apply H; lia.
  - apply IH. intros i j Hi Hij Hj. apply H; lia.
Qed.

(** X9. The files of a run are numbered from 0 on, without a gap, in the
    order in which they are handed to the writer; no name is used
    twice. *)
Theorem frames_numbered_from_zero (w : world) (device : string)
  (interval : pyfloat) (output_dir : option string) :
  let r := run w device interval output_dir in
  written (calls r) = map frame_name (numbers 0 (count is_imwrite (calls r)))
  /\ (Z.of_nat (count is_imwrite (calls r)) < 10 ^ int_max_str_digits ->
      NoDup (written (calls r))).
Proof.
  intros r. split; [apply run_names|].
  intros Hk. subst r. rewrite run_names. apply nodup_numbers.
  intros i j Hi Hij Hj. apply frame_name_differs; lia.
Qed.

Lemma frames_numbered_from_zero_witness :
  NoDup (written (calls (run Scenario.fails_on_fifth "0" (Finite 1) None))).
Proof.
  destruct (frames_numbered_from_zero Scenario.fails_on_fifth "0" (Finite 1)
              None) as [_ Distinct].
  apply Distinct.
  apply Z.lt_le_trans with (10 ^ 1); [reflexivity|].
  apply Z.pow_le_mono_r; unfold int_max_str_digits; lia.
Defined.

(** X10. In a run of at most a million frames the names come in strictly
    increasing order of strings: sorting the directory gives back the
    order of capture. *)
Theorem names_sorted_up_to_a_million (w : world) (device : string)
  (interval : pyfloat) (output_dir : option string) :
  Z.of_nat (count is_imwrite (calls (run w device interval output_dir)))
  <= 1000000 ->
  StronglySorted str_lt (written (calls (run w device interval output_dir))).
Proof.
  intros Hk. rewrite run_names. apply sorted_numbers.
  intros i j Hi Hij Hj. apply frame_name_lt; lia.
Qed.

Lemma names_sorted_up_to_a_million_witness :
  StronglySorted str_lt
    (written (calls (run Scenario.fails_on_fifth "0" (Finite 1) None))).
Proof.
  apply (names_sorted_up_to_a_million Scenario.fails_on_fifth "0" (Finite 1)
           None).
  apply Z.leb_le. reflexivity.
Defined.

(** From a million on the field has seven digits. *)
Lemma format_06d_seven (j : Z) :
  1000000 <= j <= 9999999 -> format_06d j = fixed_width 7 j.
Proof.
  intros Hj. unfold format_06d. destruct (Z.ltb_spec j 0); [lia|].
  pose proof (str_nat_fuel j ltac:(lia)) as Hf.
  assert (L : (6 < String.length (str_nat j))%nat).
  { unfold str_nat. apply dec_digits_long.
    change (10 ^ Z.of_nat 6) with 1000000. lia. }
  rewrite <- (zfill_dec_digits (S (Z.to_nat (Z.log2 j))) j 7);
    [ | lia | change (10 ^ Z.of_nat 7) with 10000000; lia | lia ].
  fold (str_nat j). unfold zfill.
  now replace (6 - String.length (str_nat j))%nat with 0%nat by lia;
    replace (7 - String.length (str_nat j))%nat with 0%nat by lia.
Qed.

(** X11. Past 999999 the order of names is no longer the order of capture:
    the name of a frame [j] of seven digits sorts before the name of an
    earlier frame [i] exactly when [i] is above the first six digits of
    [j]. *)
Theorem names_unsorted_past_a_million (i j : Z) :
  0 <= i <= 999999 ->
  1000000 <= j <= 9999999 ->
  (str_lt (frame_name j) (frame_name i) <-> j / 10 < i).
Proof.
  intros Hi Hj. unfold str_lt, frame_name.
  rewrite (format_06d_fixed i), (format_06d_seven j) by lia.
  rewrite compare_common_prefix.
  change (fixed_width 7 j)
    with (fixed_width 6 (j / 10) ++ String (digit_char (j mod 10)) "")%string.
  rewrite append_assoc.
  rewrite compare_same_length by now rewrite !fixed_width_length.
  assert (Hq : 100000 <= j / 10 <= 999999).
  { split; [apply Z.div_le_lower_bound | apply Z.lt_succ_r,
            Z.div_lt_upper_bound]; lia. }
  rewrite fixed_width_compare by (change (10 ^ Z.of_nat 6) with 1000000; lia).
  destruct (Z.compare_spec (j / 10) i) as [E | L | G].
  - pose proof (Z.mod_pos_bound j 10 ltac:(lia)) as Hm.
    cbn [append String.compare]. unfold Ascii.compare.
    assert (C : N_of_ascii (digit_char (j mod 10)) = Z.to_N (48 + j mod 10)).
    { unfold digit_char, chr. apply N_ascii_embedding. lia. }
    rewrite C.
    replace (Z.to_N (48 + j mod 10) ?= N_of_ascii ".")%N with Gt
      by (symmetry; apply N.compare_gt_iff; change (N_of_ascii ".") with 46%N;
          lia).
    split; [discriminate | lia].
  - split; [intros _; exact L | reflexivity].
  - split; [discriminate | lia].
Qed.

Lemma names_unsorted_past_a_million_witness :
  str_lt (frame_name 1000000) (frame_name 999999).
Proof.
  apply (names_unsorted_past_a_million 999999 1000000);
    [lia | lia | reflexivity].
Defined.

End NameFacts.

(** ** More on the Device Resolver *)

Module ResolverMore.
Import Py PyFacts Text TextFacts Resolver ResolverFacts.

Lemma resolve_cases (selector : string) (catalog : list CameraInfo) :
  (exists c, In c catalog
             /\ resolve_device selector catalog = Return (index c))
  \/ resolve_device selector catalog = Raise (ClickException msg_no_cameras)
  \/ resolve_device selector catalog
     = Raise (ClickException (msg_device_not_found selector))
  \/ resolve_device selector catalog
     = Raise (ClickException (msg_no_match selector)).
Proof.
  unfold resolve_device. destruct catalog as [|c0 rest]; [now right; left|].
  set (catalog := c0 :: rest).
  destruct (int selector) as [n|].
  - destruct (find (fun camera => index camera =? n) catalog) as [c|] eqn:F.
    + left. exists c. split; [|reflexivity]. now apply find_some in F.
    + destruct ((0 <=? n) && (n <? Z.of_nat (List.length catalog)))%bool eqn:R.
      * apply andb_true_iff in R. destruct R as [R1 R2].
        apply Z.leb_le in R1. apply Z.ltb_lt in R2.
        destruct (nth_error catalog (Z.to_nat n)) as [c|] eqn:N.
        -- left. exists c. split; [|reflexivity]. now apply nth_error_In in N.
        -- apply nth_error_None in N. lia.
      * now right; right; left.
  - destruct (find (name_matches selector) catalog) as [c|] eqn:F.
    + left. exists c. split; [|reflexivity]. now apply find_some in F.
    + now right; right; right.
Qed.

(** X1. [resolve_device] raises nothing but its three errors, and what it
    returns is the device id of a descriptor of the catalog: the lookup
    by position never runs off the list. *)
Theorem resolve_total (selector : string) (catalog : list CameraInfo) :
  (exists c, In c catalog
             /\ resolve_device selector catalog = Return (index c))
  \/ resolve_device selector catalog = Raise (ClickException msg_no_cameras)
  \/ resolve_device selector catalog
     = Raise (ClickException (msg_device_not_found selector))
  \/ resolve_device selector catalog
     = Raise (ClickException (msg_no_match selector)).
Proof. apply resolve_cases. Qed.

(** X2. For a selector that [int] takes, the names of the catalog play no
    part: two catalogs with the same device ids, in the same order,
    resolve it alike. *)
Theorem integer_selector_ignores_names (selector : string) (n : Z)
  (catalog catalog' : list CameraInfo) :
  int selector = Some n ->
  map index catalog = map index catalog' ->
  resolve_device selector catalog = resolve_device selector catalog'.
Proof.
  intros Hint Hids.
  assert (L : List.length catalog = List.length catalog').
  { now rewrite <- (length_map index catalog), Hids, length_map. }
  assert (F : forall l l', map index l = map index l' ->
              option_map index (find (fun camera => index camera =? n) l)
              = option_map index (find (fun camera => index camera =? n) l')).
  { induction l as [|a l IH]; intros [|a' l'] H; try discriminate H.
    - reflexivity.
    - cbn in H. injection H as Ha H. cbn. rewrite Ha.
      destruct (index a' =? n); [cbn; now rewrite Ha | now apply IH]. }
  assert (N : forall i, option_map index (nth_error catalog i)
                        = option_map index (nth_error catalog' i)).
  { intros i. now rewrite <- !nth_error_map, Hids. }
  unfold resolve_device. rewrite Hint.
  destruct catalog as [|c0 rest], catalog' as [|c0' rest']; try discriminate L.
  - reflexivity.
  - specialize (F _ _ Hids). specialize (N (Z.to_nat n)). rewrite L.
    destruct (find (fun camera => index camera =? n) (c0 :: rest)) as [c|],
             (find (fun camera => index camera =? n) (c0' :: rest')) as [c'|];
      cbn in F; try discriminate F.
    + now injection F as ->.
    + destruct ((0 <=? n) && (n <? Z.of_nat (List.length (c0' :: rest'))))%bool;
        [|reflexivity].
      destruct (nth_error (c0 :: rest) (Z.to_nat n)) as [c|],
               (nth_error (c0' :: rest') (Z.to_nat n)) as [c'|];
        cbn in N; try discriminate N; [now injection N as -> | reflexivity].
Qed.

Lemma integer_selector_ignores_names_witness :
  resolve_device "1" Scenario.catalog
  = resolve_device "1"
      [mkCamera 1200 (Some "1"%string); mkCamera 55 None].
Proof.
  apply (integer_selector_ignores_names "1" 1); reflexivity.
Defined.

(** X3. The device id printed for a descriptor, given back as the selector,
    selects that device id, wherever the descriptor stands in the
    catalog. *)
Theorem resolve_by_device_id (catalog : list CameraInfo) (c : CameraInfo) :
  In c catalog ->
  Z.abs (index c) < 10 ^ int_max_str_digits ->
  resolve_device (str_int (index c)) catalog = Return (index c).
Proof.
  intros Hin Hb. unfold resolve_device.
  destruct catalog as [|c0 rest]; [now elim Hin|].
  rewrite (int_of_str_int _ Hb).
  destruct (find (fun camera => index camera =? index c) (c0 :: rest))
    as [c'|] eqn:F.
  - apply find_some in F. destruct F as [_ F]. apply Z.eqb_eq in F.
    now rewrite F.
  - apply (find_none _ _ F) in Hin. rewrite Z.eqb_refl in Hin. discriminate.
Qed.

Lemma resolve_by_device_id_witness :
  resolve_device (str_int 55) Scenario.catalog = Return 55.
Proof.
  apply (resolve_by_device_id Scenario.catalog
           (mkCamera 55 (Some "FaceTime HD"%string))).
  - right. now left.
  - apply Z.lt_le_trans with (10 ^ 4); [reflexivity|].
    apply Z.pow_le_mono_r; unfold int_max_str_digits; lia.
Defined.

(** X4. The position of a descriptor, given as the selector, selects that
    descriptor unless the position is itself the device id of some
    descriptor, which then wins. *)
Theorem resolve_by_position (catalog : list CameraInfo) (i : nat)
  (c : CameraInfo) :
  nth_error catalog i = Some c ->
  Z.of_nat i < 10 ^ int_max_str_digits ->
  ((forall c', In c' catalog -> index c' <> Z.of_nat i) ->
     resolve_device (str_int (Z.of_nat i)) catalog = Return (index c))
  /\ ((exists c', In c' catalog /\ index c' = Z.of_nat i) ->
      resolve_device (str_int (Z.of_nat i)) catalog = Return (Z.of_nat i)).
Proof.
  intros Hn Hb. unfold resolve_device.
  destruct catalog as [|c0 rest]; [destruct i; discriminate Hn|].
  assert (Hb' : Z.abs (Z.of_nat i) < 10 ^ int_max_str_digits)
    by (rewrite Z.abs_eq; [exact Hb | apply Nat2Z.is_nonneg]).
  rewrite (int_of_str_int _ Hb').
  assert (Hlen : (i < List.length (c0 :: rest))%nat)
    by (apply nth_error_Some; now rewrite Hn).
  split.
  - intros Hno.
    assert (F : find (fun camera => index camera =? Z.of_nat i) (c0 :: rest)
                = None).
    { apply find_none_iff. intros y Hy. apply Z.eqb_neq. now apply Hno. }
    rewrite F.
    replace ((0 <=? Z.of_nat i)
             && (Z.of_nat i <? Z.of_nat (List.length (c0 :: rest))))%bool
      with true
      by (symmetry; apply andb_true_iff; split;
          [apply Z.leb_le | apply Z.ltb_lt]; lia).
    now rewrite Nat2Z.id, Hn.
  - intros [c' [Hin Hc']].
    destruct (find (fun camera => index camera =? Z.of_nat i) (c0 :: rest))
      as [c''|] eqn:F.
    + apply find_some in F. destruct F as [_ F]. apply Z.eqb_eq in F.
      now rewrite F.
    + apply (find_none _ _ F) in Hin. apply Z.eqb_neq in Hin. now elim Hin.
Qed.

Lemma resolve_by_position_witness :
  resolve_device (str_int 1) Scenario.catalog = Return 55
  /\ resolve_device (str_int 1) Scenario.crossed = Return 1.
Proof.
  assert (B : Z.of_nat 1 < 10 ^ int_max_str_digits).
  { apply Z.lt_le_trans with (10 ^ 4); [reflexivity|].
    apply Z.pow_le_mono_r; unfold int_max_str_digits; lia. }
  split.
  - destruct (resolve_by_position Scenario.catalog 1
                (mkCamera 55 (Some "FaceTime HD"%string)) eq_refl B)
      as [Free _].
    apply Free. intros c' [<- | [<- | []]]; discriminate.
  - destruct (resolve_by_position Scenario.crossed 1
                (mkCamera 0 (Some ""%string)) eq_refl B)
      as [_ Taken].
    apply Taken. exists (mkCamera 1 None). split; [now left | reflexivity].
Defined.

(** X5. The empty selector is no integer and occurs in every name: it
    selects the first descriptor that has a name, not empty, and fails
    when there is none. *)
Theorem resolve_empty_selector (catalog : list CameraInfo) :
  catalog <> [] ->
  resolve_device "" catalog
  = match find (fun camera => truthy (name camera)) catalog with
    | Some camera => Return (index camera)
    | None => Raise (ClickException (msg_no_match ""))
    end.
Proof.
  intros Hne. unfold resolve_device.
  destruct catalog as [|c0 rest]; [now elim Hne|].
  change (int "") with (@None Z).
  assert (E : forall c, name_matches "" c = truthy (name c)).
  { intros c. unfold name_matches. destruct (name c) as [n|]; [|reflexivity].
    cbn [lower]. destruct (lower n); cbn; now rewrite ?andb_true_r. }
  assert (F : forall l, find (name_matches "") l
                        = find (fun camera => truthy (name camera)) l).
  { induction l as [|a l IH]; [reflexivity|]. cbn. now rewrite E, IH. }
  now rewrite F.
Qed.

Lemma resolve_empty_selector_witness :
  resolve_device "" Scenario.crossed = Return 7.
Proof.
  rewrite (resolve_empty_selector Scenario.crossed); [reflexivity|].
  discriminate.
Defined.

(** *** Case, on code points below 256 *)

Lemma lower_char_facts (c : ascii) :
  is_space (lower_char c) = is_space c
  /\ is_digit (lower_char c) = is_digit c
  /\ Ascii.eqb (lower_char c) "_" = Ascii.eqb c "_"
  /\ lower_char (lower_char c) = lower_char c
  /\ (is_digit c = true -> lower_char c = c).
Proof.
  destruct c as [[] [] [] [] [] [] [] []];
    (split; [reflexivity | split; [reflexivity | split; [reflexivity |
       split; [reflexivity | intros H; try discriminate H; reflexivity]]]]).
Qed.

Lemma lower_lower (s : string) : lower (lower s) = lower s.
Proof.
  induction s as [|c s IH]; [reflexivity|]. cbn. rewrite IH.
  now destruct (lower_char_facts c) as [_ [_ [_ [-> _]]]].
Qed.

Lemma lstrip_lower (s : string) : lstrip (lower s) = lower (lstrip s).
Proof.
  induction s as [|c s IH]; [reflexivity|]. cbn.
  destruct (lower_char_facts c) as [-> _].
  now destruct (is_space c).
Qed.

Lemma rstrip_lower (s : string) : rstrip (lower s) = lower (rstrip s).
Proof.
  induction s as [|c s IH]; [reflexivity|]. cbn. rewrite IH.
  destruct (lower_char_facts c) as [-> _].
  destruct (rstrip s); cbn; [now destruct (is_space c) | reflexivity].
Qed.

Lemma parse_digits_lower (s : string) :
  forall prev acc count,
    parse_digits (lower s) prev acc count = parse_digits s prev acc count.
Proof.
  induction s as [|c s IH]; intros prev acc count; [reflexivity|]. cbn.
  destruct (lower_char_facts c) as [_ [-> [-> [_ D]]]].
  destruct (is_digit c) eqn:Hd.
  - rewrite (D eq_refl). apply IH.
  - destruct (Ascii.eqb c "_" && prev)%bool; [apply IH | reflexivity].
Qed.

(** [int] does not look at the case of letters. *)
Lemma int_lower (s : string) : int (lower s) = int s.
Proof.
  unfold int. rewrite lstrip_lower, rstrip_lower.
  destruct (rstrip (lstrip s)) as [|c r]; [reflexivity|].
  cbn [lower].
  destruct c as [[] [] [] [] [] [] [] []];
    lazymatch goal with
    | |- context [lower_char ?a] =>
        let x := eval vm_compute in (lower_char a) in
        change (lower_char a) with x;
        cbv beta match;
        first [ rewrite (parse_digits_lower r); reflexivity
              | change (String x (lower r)) with (lower (String a r));
                rewrite (parse_digits_lower (String a r)); reflexivity ]
    end.
Qed.

End ResolverMore.

(** ** More on the capture session *)

Module SessionMore.
Import Py PyFacts Text Resolver ResolverFacts ResolverMore Session SessionFacts.
Import Observe.

Lemma body_in_directory (interval : pyfloat) (out : string) (p : pass)
  (v : vars) :
  Forall (in_directory out) (snd (body interval out p v)).
Proof. open_body p interval; repeat constructor. Qed.

Lemma loop_in_directory (interval : pyfloat) (out : string) (ps : list pass) :
  forall v, Forall (in_directory out) (snd (while_loop interval out ps v)).
Proof.
  induction ps as [|p ps IH]; intros v.
  - simpl. destruct (stop_recording v); constructor.
  - destruct (stop_recording v) eqn:S.
    + rewrite loop_stopped by exact S. constructor.
    + rewrite loop_step by exact S.
      pose proof (body_in_directory interval out p v) as B.
      destruct (body interval out p v) as [[rb vb] tb]. cbn [snd] in B.
      destruct rb as [[how|]|e|]; try exact B.
      specialize (IH vb).
      destruct (while_loop interval out ps vb) as [[r2 v2] t2].
      cbn [after snd] in *. apply Forall_app. now split.
Qed.

(** X12. The output directory is made before anything else, whatever comes
    after, and it is the only directory of the run: every frame is
    written into it. Without [OUTPUT_DIR] its name is made of the
    time. *)
Theorem directory_made_first (w : world) (device : string)
  (interval : pyfloat) (output_dir : option string) :
  (exists rest,
      calls (run w device interval output_dir)
      = Mkdir (output_path_of w output_dir) :: rest)
  /\ Forall (in_directory (output_path_of w output_dir))
       (calls (run w device interval output_dir))
  /\ output_path_of w None = ("capture-" ++ now w)%string.
Proof.
  assert (Shown : forall path e, Forall (in_directory path) (click_shows e)).
  { intros path e. destruct e; repeat constructor. }
  split; [|split; [|reflexivity]].
  - destruct (resolve_device device (cameras w)) as [idx|e] eqn:Hres.
    2:{ rewrite (run_unresolved _ _ _ _ _ Hres). now eexists. }
    destruct (is_opened w) eqn:Hopen.
    2:{ rewrite (run_unopened _ _ _ _ _ Hres Hopen). now eexists. }
    destruct (while_loop interval (output_path_of w output_dir) (passes w)
                (mkVars (sigint_before_loop w) 0)) as [[rl v] t] eqn:HW.
    rewrite (run_recording w device interval output_dir idx Hres Hopen
               rl v t HW).
    unfold preamble. destruct rl; cbn [calls app]; now eexists.
  - destruct (resolve_device device (cameras w)) as [idx|e] eqn:Hres.
    2:{ rewrite (run_unresolved _ _ _ _ _ Hres). cbn [calls].
        apply Forall_app. split; [repeat constructor | apply Shown]. }
    destruct (is_opened w) eqn:Hopen.
    2:{ rewrite (run_unopened _ _ _ _ _ Hres Hopen). cbn [calls].
        destruct (sigint_before_loop w); repeat constructor. }
    set (out := output_path_of w output_dir).
    pose proof (loop_in_directory interval out (passes w)
                  (mkVars (sigint_before_loop w) 0)) as F.
    destruct (while_loop interval out (passes w)
                (mkVars (sigint_before_loop w) 0)) as [[rl v] t] eqn:HW.
    cbn [snd] in F.
    pose proof (run_recording w device interval output_dir idx
                  Hres Hopen rl v t HW) as R. cbv zeta in R. fold out in R.
    assert (P : Forall (in_directory out) (preamble w idx interval out)).
    { unfold preamble. destruct (sigint_before_loop w); repeat constructor. }
    assert (E : Forall (in_directory out) (epilogue (frame_count v)))
      by (unfold epilogue; repeat constructor).
    rewrite R. destruct rl as [how|e|]; cbn [calls].
    + apply Forall_app. split; [exact P|]. apply Forall_app. now split.
    + apply Forall_app. split; [|apply Shown].
      apply Forall_app. split; [exact P|]. apply Forall_app. now split.
    + apply Forall_app. now split.
Qed.

(** X13. A run that finds no device, or cannot open the one it found, ends
    with exit status 1 before the loop: the directory has been made,
    nothing is read or written, and [release] is not called. When no
    device is found the interrupt handler is not even installed. *)
Theorem early_failures (w : world) (device : string)
  (interval : pyfloat) (output_dir : option string) :
  let r := run w device interval output_dir in
  (forall e,
      resolve_device device (cameras w) = Raise e ->
      exists m,
        e = ClickException m
        /\ calls r = [Mkdir (output_path_of w output_dir);
                      Echo true (ClickError m)]
        /\ exit_status r = Some 1
        /\ frames r = 0)
  /\ (forall device_index,
        resolve_device device (cameras w) = Return device_index ->
        is_opened w = false ->
        calls r
        = [Mkdir (output_path_of w output_dir); SetSigint]
          ++ (if sigint_before_loop w then [Echo false StoppingRecording]
              else [])
          ++ [VideoCapture device_index; Echo true (CouldNotOpen device_index)]
        /\ exit_status r = Some 1
        /\ frames r = 0
        /\ count is_release (calls r) = 0%nat).
Proof.
  intros r. split.
  - intros e Hres. subst r. rewrite (run_unresolved _ _ _ _ _ Hres).
    destruct (resolve_cases device (cameras w))
      as [[c [_ H]] | [H | [H | H]]]; rewrite H in Hres;
      try discriminate Hres; injection Hres as <-; eexists;
      (split; [reflexivity | now repeat split]).
  - intros idx Hres Hopen. subst r.
    rewrite (run_unopened _ _ _ _ _ Hres Hopen). cbn [calls exit_status frames].
    split; [reflexivity | split; [reflexivity | split; [reflexivity|]]].
    now destruct (sigint_before_loop w).
Qed.

Lemma early_failures_witness :
  exit_status (run Scenario.no_cameras "0" (Finite 1) None) = Some 1
  /\ count is_release
       (calls (run Scenario.cannot_open "0" (Finite 1) None)) = 0%nat.
Proof.
  split.
  - destruct (early_failures Scenario.no_cameras "0" (Finite 1) None)
      as [Unresolved _].
    destruct (Unresolved (ClickException msg_no_cameras) eq_refl)
      as [m [_ [_ [Status _]]]].
    exact Status.
  - destruct (early_failures Scenario.cannot_open "0" (Finite 1) None)
      as [_ Unopened].
    destruct (Unopened 1200 eq_refl eq_refl) as [_ [_ [_ Released]]].
    exact Released.
Defined.

(** [time.sleep] takes exactly the finite, non-negative intervals below
    the range of the clock. *)
Lemma sleep_returns (interval : pyfloat) :
  time_sleep interval = Return tt <-> sleepable interval.
Proof.
  destruct interval as [q| | |]; cbn [sleepable];
    try (split; [discriminate | intros []]).
  unfold time_sleep.
  destruct (Qle_bool (9223372036854775808 # 1000000000) q) eqn:E1; cbn [orb].
  - split; [discriminate|]. intros [_ H]. apply Qle_bool_iff in E1.
    now apply Qlt_not_le in H.
  - assert (L : (q < 9223372036854775808 # 1000000000)%Q).
    { apply Qnot_le_lt. intros H. apply Qle_bool_iff in H. congruence. }
    destruct (Qltb q (- (9223372036854775808 # 1000000000))) eqn:E2.
    + split; [discriminate|]. intros [H0 _]. unfold Qltb in E2.
      apply negb_true_iff in E2.
      assert (T : Qle_bool (- (9223372036854775808 # 1000000000)) q = true).
      { apply Qle_bool_iff. eapply Qle_trans; [|exact H0]. discriminate. }
      congruence.
    + unfold Qltb. destruct (Qle_bool 0 q) eqn:E3; cbn [negb].
      * apply Qle_bool_iff in E3. split; [now intros _ | reflexivity].
      * split; [discriminate|]. intros [H0 _]. apply Qle_bool_iff in H0.
        congruence.
Qed.

(** X14. Nothing in the loop counts the frames down: as long as the reads,
    writes and updates return and nobody interrupts, the run goes on,
    one frame per pass, and nothing is released. *)
Theorem records_until_stopped (w : world) (device : string)
  (interval : pyfloat) (output_dir : option string) (device_index : Z)
  (oks : list bool) :
  resolve_device device (cameras w) = Return device_index ->
  is_opened w = true ->
  sigint_before_loop w = false ->
  sleepable interval ->
  Forall2 goes_well (passes w) oks ->
  let r := run w device interval output_dir in
  ended r = Pending
  /\ exit_status r = None
  /\ frames r = Z.of_nat (List.length (passes w))
  /\ count is_imwrite (calls r) = List.length (passes w)
  /\ count is_release (calls r) = 0%nat.
Proof.
  intros Hres Hopen Hsig Hsl Hgood r.
  apply sleep_returns in Hsl.
  set (out := output_path_of w output_dir).
  pose proof (loop_goes_well interval out (passes w) oks [] 0 Hgood Hsl) as HW.
  rewrite app_nil_r in HW. cbn [while_loop stop_recording after] in HW.
  rewrite app_nil_r in HW. rewrite <- Hsig in HW at 1.
  pose proof (run_recording w device interval output_dir device_index
                Hres Hopen _ _ _ HW) as R. cbv zeta in R. fold out in R.
  destruct (loop_calls _ _ _ _ _ _ _ HW) as [Rel _].
  destruct (loop_counts _ _ _ _ _ _ _ HW) as [Fr _].
  cbn [frame_count] in Fr.
  assert (Sv : forall n, count is_saved (passes_calls interval out n oks)
                         = count is_imwrite (passes_calls interval out n oks)).
  { clear. induction oks as [|ok oks IH]; intros n; [reflexivity|].
    cbn [passes_calls]. rewrite !count_app, IH. reflexivity. }
  destruct (count_preamble w device_index interval out)
    as [PRel [_ [_ [PWr _]]]].
  subst r. rewrite R. cbn [ended exit_status frames calls frame_count].
  rewrite !count_app, PRel, PWr, Rel.
  split; [reflexivity | split; [reflexivity | split; [lia|]]].
  split; [|reflexivity].
  rewrite <- Sv. lia.
Qed.

Lemma records_until_stopped_witness :
  ended (run (Scenario.working [Scenario.fine; Scenario.write_fails;
                                Scenario.fine])
           "0" (Finite 0) None) = Pending
  /\ frames (run (Scenario.working [Scenario.fine; Scenario.write_fails;
                                    Scenario.fine])
               "0" (Finite 0) None) = 3.
Proof.
  destruct (records_until_stopped
              (Scenario.working [Scenario.fine; Scenario.write_fails;
                                 Scenario.fine])
              "0" (Finite 0) None 1200 [true; false; true]
              eq_refl eq_refl eq_refl) as [E [_ [F _]]].
  - split; [discriminate | reflexivity].
  - repeat constructor.
  - split; [exact E | exact F].
Defined.

Lemma saved_le_imwrite (l : list event) :
  (count is_saved l <= count is_imwrite l)%nat.
Proof.
  induction l as [|e l IH]; [cbn; lia|].
  rewrite !count_cons. destruct e; cbn; try lia.
  destruct r; cbn; lia.
Qed.

(** [time.sleep] refuses every other interval. *)
Lemma sleep_refuses (interval : pyfloat) :
  ~ sleepable interval ->
  exists e, time_sleep interval = Raise e /\ exit_code_of e = 1.
Proof.
  intros Hns. destruct (time_sleep interval) as [[]|e] eqn:Hs.
  - now apply sleep_returns in Hs.
  - exists e. split; [reflexivity|].
    destruct interval as [q| | |]; cbn in Hs.
    + destruct (Qle_bool (9223372036854775808 # 1000000000) q
                || Qltb q (- (9223372036854775808 # 1000000000)))%bool;
        [now injection Hs as <-|].
      destruct (Qltb q 0); [now injection Hs as <- | discriminate Hs].
    + now injection Hs as <-.
    + now injection Hs as <-.
    + now injection Hs as <-.
Qed.

(** X15. An interval that [time.sleep] does not take (negative, not a
    number, infinite, beyond the clock) is not refused when the command
    starts: in no run is more than one frame written or counted, and
    once the device is found and opened the session runs like any
    other, the device is opened and the loop entered. It stops at its
    first wait: when the calls of the first pass return, one frame has
    been written, under the first name, and counted, [time.sleep]
    raises, the handle is released once, the count is reported and the
    exit status is 1. *)
Theorem unsleepable_interval (w : world) (device : string)
  (interval : pyfloat) (output_dir : option string) :
  ~ sleepable interval ->
  let r := run w device interval output_dir in
  (count is_imwrite (calls r) <= 1)%nat
  /\ frames r <= 1
  /\ (forall device_index,
        resolve_device device (cameras w) = Return device_index ->
        is_opened w = true ->
        In (VideoCapture device_index) (calls r)
        /\ count is_open (calls r) = 1%nat
        /\ (forall p rest,
              sigint_before_loop w = false ->
              passes w = p :: rest ->
              completes p ->
              exists e,
                time_sleep interval = Raise e
                /\ ended r = Exc e
                /\ frames r = 1
                /\ written (calls r) = [frame_name 0]
                /\ count is_release (calls r) = 1%nat
                /\ filter is_count_report (calls r)
                   = [Echo false (RecordingStopped 1)]
                /\ exit_status r = Some 1)).
Proof.
  intros Hns r.
  destruct (sleep_refuses interval Hns) as [e [Hs Hcode]].
  assert (W : (count is_imwrite (calls r) <= 1)%nat).
  { subst r.
    destruct (resolve_device device (cameras w)) as [idx|e'] eqn:Hres.
    2:{ rewrite (run_unresolved _ _ _ _ _ Hres). cbn [calls].
        rewrite count_app, (count_click_shows is_imwrite) by reflexivity.
        cbn. lia. }
    destruct (is_opened w) eqn:Hopen.
    2:{ rewrite (run_unopened _ _ _ _ _ Hres Hopen). cbn [calls].
        destruct (sigint_before_loop w); cbn; lia. }
    set (out := output_path_of w output_dir).
    destruct (while_loop interval out (passes w)
                (mkVars (sigint_before_loop w) 0)) as [[rl v] t] eqn:HW.
    pose proof (run_recording w device interval output_dir idx
                  Hres Hopen rl v t HW) as R. cbv zeta in R. fold out in R.
    pose proof (loop_sleep_raises interval out (passes w)
                  (mkVars (sigint_before_loop w) 0) e Hs) as One.
    rewrite HW in One. cbn [snd] in One.
    destruct (count_preamble w idx interval out) as [_ [_ [_ [PWr _]]]].
    rewrite R.
    destruct rl as [how|e''|]; cbn [calls];
      rewrite ?count_app, ?PWr, ?(count_click_shows is_imwrite) by reflexivity;
      cbn; lia. }
  split; [exact W|]. split.
  { destruct (run_counts w device interval output_dir) as [F _].
    pose proof (saved_le_imwrite (calls (run w device interval output_dir))).
    subst r. lia. }
  intros device_index Hres Hopen.
  set (out := output_path_of w output_dir).
  destruct (while_loop interval out (passes w)
              (mkVars (sigint_before_loop w) 0)) as [[rl v] t] eqn:HW.
  pose proof (run_recording w device interval output_dir device_index
                Hres Hopen rl v t HW) as R. cbv zeta in R. fold out in R.
  destruct (loop_calls _ _ _ _ _ _ _ HW) as [Rel [Op Rep]].
  destruct (count_preamble w device_index interval out)
    as [PRel [POp [PRep [PWr _]]]].
  split; [|split].
  - assert (P : In (VideoCapture device_index)
                  (preamble w device_index interval out)).
    { unfold preamble. destruct (sigint_before_loop w); cbn; tauto. }
    subst r. rewrite R.
    destruct rl; cbn [calls];
      first [ apply in_or_app; left; exact P
            | apply in_or_app; left; apply in_or_app; left; exact P ].
  - subst r. rewrite R.
    destruct rl as [how|e'|]; cbn [calls];
      rewrite ?count_app, ?POp, ?Op, ?(count_click_shows is_open) by reflexivity;
      reflexivity.
  - intros p rest Hsig Hp Hc. exists e.
    destruct (body_sleep_fails interval out p (mkVars false 0) e Hc Hs)
      as [BE BF].
    pose proof (body_written interval out p (mkVars false 0)
                  (proj1 Hc)) as BW.
    rewrite Hsig, Hp, loop_step in HW by reflexivity.
    destruct (body interval out p (mkVars false 0)) as [[rb vb] tb] eqn:B.
    cbn [fst snd frame_count] in BE, BF, BW. subst rb.
    injection HW as <- <- <-.
    destruct (body_calls _ _ _ _ _ _ _ B) as [BRel [_ [BRep _]]].
    subst r. rewrite R. cbn [ended frames calls exit_status].
    rewrite BF, Hcode.
    split; [exact Hs | split; [reflexivity | split; [reflexivity|]]].
    split; [|split; [|split]].
    + rewrite !written_app, written_preamble, BW, written_click_shows.
      reflexivity.
    + rewrite !count_app, PRel, BRel, (count_click_shows is_release)
        by reflexivity.
      reflexivity.
    + rewrite !filter_app.
      assert (N : forall l, count is_count_report l = 0%nat ->
                            filter is_count_report l = []).
      { intros l. unfold count. now destruct (filter is_count_report l). }
      rewrite (N _ PRep), (N _ BRep),
        (N _ (count_click_shows is_count_report e ltac:(reflexivity))).
      reflexivity.
    + reflexivity.
Qed.

Lemma unsleepable_interval_witness :
  ~ sleepable NaN
  /\ In (VideoCapture 1200)
       (calls (run (Scenario.working [Scenario.fine; Scenario.fine]) "0" NaN
                 None))
  /\ frames (run (Scenario.working [Scenario.fine; Scenario.fine]) "0" NaN
               None) = 1
  /\ exit_status (run (Scenario.working [Scenario.fine; Scenario.fine]) "0"
                    NaN None) = Some 1.
Proof.
  assert (N : ~ sleepable NaN) by (intros []).
  destruct (unsleepable_interval
              (Scenario.working [Scenario.fine; Scenario.fine]) "0" NaN None N)
    as [_ [_ Found]].
  destruct (Found 1200 eq_refl eq_refl) as [Opened [_ First]].
  split; [exact N | split; [exact Opened|]].
  destruct (First Scenario.fine [Scenario.fine] eq_refl eq_refl)
    as [e [_ [_ [F [_ [_ [_ X]]]]]]].
  - repeat split. now exists true.
  - split; [exact F | exact X].
Defined.

(** *** When and how often the operator interrupts *)

Lemma drop_requests_app (a b : list event) :
  drop_requests (a ++ b) = drop_requests a ++ drop_requests b.
Proof. apply filter_app. Qed.

(** But for the lines of the handler, a pass does what the same pass
    does without interrupt; the flag is left up when there was one and
    the pass went on to the test of the loop. *)
Lemma body_but_requests (interval : pyfloat) (out : string) (p : pass)
  (v : vars) :
  let q := mkPass [] (read p) (imwrite p) (update p) in
  fst (fst (body interval out p v)) = fst (fst (body interval out q v))
  /\ frame_count (snd (fst (body interval out p v)))
     = frame_count (snd (fst (body interval out q v)))
  /\ drop_requests (snd (body interval out p v))
     = drop_requests (snd (body interval out q v))
  /\ (fst (fst (body interval out p v)) = Val None ->
      stop_recording (snd (fst (body interval out p v)))
      = (stop_recording v
         || (existsb (point_eqb AtRead) (sigint p)
             || existsb (point_eqb AtWrite) (sigint p)
             || existsb (point_eqb AtUpdate) (sigint p)
             || existsb (point_eqb AtSleep) (sigint p)))%bool).
Proof.
  cbv zeta. unfold body, deliver. cbn [sigint read imwrite update existsb].
  unfold call, lift, echo, signal_handler, bind, emit, ret,
    raise, get_frame_count, set_frame_count, set_flag, after.
  destruct v as [b n].
  destruct (existsb (point_eqb AtRead) (sigint p));
  destruct (read p) as [[|]|?]; cbn;
    try (repeat split; intros; try discriminate; now rewrite ?orb_true_r,
         ?orb_false_r);
  destruct (existsb (point_eqb AtWrite) (sigint p));
  destruct (imwrite p) as [?|?]; cbn;
    try (repeat split; intros; try discriminate; now rewrite ?orb_true_r,
         ?orb_false_r);
  destruct (existsb (point_eqb AtUpdate) (sigint p));
  destruct (update p) as [[]|?]; cbn;
    try (repeat split; intros; try discriminate; now rewrite ?orb_true_r,
         ?orb_false_r);
  destruct (existsb (point_eqb AtSleep) (sigint p));
  destruct (time_sleep interval) as [[]|?]; cbn;
    repeat split; intros; try discriminate;
    now rewrite ?orb_true_r, ?orb_false_r.
Qed.

Lemma no_interrupt (p : pass) :
  sigint p = [] ->
  (existsb (point_eqb AtRead) (sigint p)
   || existsb (point_eqb AtWrite) (sigint p)
   || existsb (point_eqb AtUpdate) (sigint p)
   || existsb (point_eqb AtSleep) (sigint p))%bool = false.
Proof. now intros ->. Qed.

Lemma interrupts_agree (p p' : pass) :
  (sigint p = [] <-> sigint p' = []) ->
  (existsb (point_eqb AtRead) (sigint p)
   || existsb (point_eqb AtWrite) (sigint p)
   || existsb (point_eqb AtUpdate) (sigint p)
   || existsb (point_eqb AtSleep) (sigint p))%bool
  = (existsb (point_eqb AtRead) (sigint p')
     || existsb (point_eqb AtWrite) (sigint p')
     || existsb (point_eqb AtUpdate) (sigint p')
     || existsb (point_eqb AtSleep) (sigint p'))%bool.
Proof.
  intros H. destruct (sigint p) as [|x l] eqn:E.
  - rewrite <- E, (no_interrupt p E), (no_interrupt p' (proj1 H eq_refl)).
    reflexivity.
  - assert (Np : sigint p <> []) by (rewrite E; discriminate).
    assert (Np' : sigint p' <> []).
    { intros E'. apply proj2 in H. specialize (H E'). discriminate H. }
    rewrite <- E, (interrupt_somewhere p Np), (interrupt_somewhere p' Np').
    reflexivity.
Qed.

Lemma loop_but_requests (interval : pyfloat) (out : string) (ps : list pass) :
  forall ps' v,
    Forall2 same_but_interrupts ps ps' ->
    fst (fst (while_loop interval out ps v))
    = fst (fst (while_loop interval out ps' v))
    /\ frame_count (snd (fst (while_loop interval out ps v)))
       = frame_count (snd (fst (while_loop interval out ps' v)))
    /\ drop_requests (snd (while_loop interval out ps v))
       = drop_requests (snd (while_loop interval out ps' v)).
Proof.
  induction ps as [|p ps IH]; intros ps' v HF; inversion HF; subst.
  - now repeat split.
  - destruct (stop_recording v) eqn:S.
    + rewrite !loop_stopped by exact S. now repeat split.
    + rewrite !loop_step by exact S.
      match goal with
      | H : same_but_interrupts p ?y |- _ =>
          rename y into p'; destruct H as [Hr [Hw [Hu Hi]]]
      end.
      destruct (body_but_requests interval out p v) as [R [F [D St]]].
      destruct (body_but_requests interval out p' v) as [R' [F' [D' St']]].
      cbv zeta in *. rewrite <- Hr, <- Hw, <- Hu in R', F', D'.
      rewrite <- R in R'. rewrite <- F in F'. rewrite <- D in D'.
      rewrite (interrupts_agree p p' Hi) in St.
      destruct (body interval out p v) as [[rb vb] tb].
      destruct (body interval out p' v) as [[rb' vb'] tb'].
      cbn [fst snd] in *. subst rb'.
      destruct rb as [[how|]|e|]; cbn [fst snd]; try now repeat split.
      assert (E : vb' = vb).
      { destruct vb, vb'. cbn in *. f_equal; [|now symmetry].
        rewrite (St eq_refl), (St' eq_refl). reflexivity. }
      subst vb'.
      match goal with
      | H : Forall2 same_but_interrupts ps ?l |- _ =>
          destruct (IH l vb H) as [A [B C]]
      end.
      match goal with
      | |- context [while_loop interval out ?l vb] =>
          lazymatch l with
          | ps => fail
          | _ => destruct (while_loop interval out l vb) as [[r2' v2'] t2']
          end
      end.
      destruct (while_loop interval out ps vb) as [[r2 v2] t2].
      cbn [after fst snd] in *. rewrite !drop_requests_app.
      repeat split; congruence.
Qed.

(** X16. When, and how often, the operator interrupts during a pass changes
    nothing but the lines the handler prints: two runs that differ only
    in the interrupts within their passes, each pass being interrupted in
    both or in neither, end alike, with the same exit status, the same
    count and the same calls. *)
Theorem interrupt_timing_irrelevant (w w' : world) (device : string)
  (interval : pyfloat) (output_dir : option string) :
  cameras w = cameras w' ->
  now w = now w' ->
  is_opened w = is_opened w' ->
  sigint_before_loop w = sigint_before_loop w' ->
  Forall2 same_but_interrupts (passes w) (passes w') ->
  let r := run w device interval output_dir in
  let r' := run w' device interval output_dir in
  ended r = ended r'
  /\ exit_status r = exit_status r'
  /\ frames r = frames r'
  /\ drop_requests (calls r) = drop_requests (calls r').
Proof.
  intros Hc Hn Ho Hs Hp r r'. subst r r'.
  assert (Hout : output_path_of w output_dir = output_path_of w' output_dir)
    by (unfold output_path_of; now rewrite Hn).
  destruct (resolve_device device (cameras w)) as [idx|e] eqn:Hres.
  2:{ rewrite (run_unresolved w _ _ _ _ Hres).
      rewrite Hc in Hres. rewrite (run_unresolved w' _ _ _ _ Hres).
      now rewrite Hout. }
  destruct (is_opened w) eqn:Hopen.
  2:{ rewrite (run_unopened w _ _ _ _ Hres Hopen).
      rewrite Hc in Hres. symmetry in Ho.
      rewrite (run_unopened w' _ _ _ _ Hres Ho).
      now rewrite Hout, Hs. }
  set (out := output_path_of w output_dir).
  destruct (loop_but_requests interval out (passes w) (passes w')
              (mkVars (sigint_before_loop w) 0) Hp) as [A [B C]].
  destruct (while_loop interval out (passes w)
              (mkVars (sigint_before_loop w) 0)) as [[rl v] t] eqn:HW.
  destruct (while_loop interval out (passes w')
              (mkVars (sigint_before_loop w) 0)) as [[rl' v'] t'] eqn:HW'.
  cbn [fst snd] in A, B, C. subst rl'.
  rewrite (run_recording w device interval output_dir idx Hres Hopen rl v t HW).
  rewrite Hc in Hres. symmetry in Ho. rewrite Hs in HW'. unfold out in HW'.
  rewrite Hout in HW'.
  rewrite (run_recording w' device interval output_dir idx Hres Ho rl v' t' HW').
  assert (P : preamble w idx interval (output_path_of w output_dir)
              = preamble w' idx interval (output_path_of w' output_dir))
    by (unfold preamble; now rewrite Hs, Hout).
  rewrite P, B.
  destruct rl as [how|e|]; cbn [ended exit_status frames calls];
    rewrite !drop_requests_app, C; now repeat split.
Qed.

Lemma interrupt_timing_irrelevant_witness :
  drop_requests
    (calls (run (Scenario.working [Scenario.fine; Scenario.interrupted;
                                   Scenario.fine])
              "0" (Finite 1) None))
  = drop_requests
      (calls (run (Scenario.working
                     [Scenario.fine;
                      mkPass [AtSleep; AtWrite; AtSleep] (Return true)
                        (Return true) (Return tt);
                      Scenario.read_fails])
                "0" (Finite 1) None)).
Proof.
  assert (Same : forall p, same_but_interrupts p p)
    by (intros p; now repeat split).
  destruct (interrupt_timing_irrelevant
              (Scenario.working [Scenario.fine; Scenario.interrupted;
                                 Scenario.fine])
              (Scenario.working
                 [Scenario.fine;
                  mkPass [AtSleep; AtWrite; AtSleep] (Return true)
                    (Return true) (Return tt);
                  Scenario.fine])
              "0" (Finite 1) None eq_refl eq_refl eq_refl eq_refl)
    as [_ [_ [_ Calls]]].
  - constructor; [apply Same|]. constructor; [|constructor; [apply Same|]].
    + repeat split; discriminate.
    + constructor.
  - rewrite Calls. reflexivity.
Defined.

(** *** What the display shows *)






End SessionMore.

(** ** The listing and the display *)

Module ListingFacts.
Import Py PyFacts FormatFacts Text TextFacts Resolver ResolverFacts Listing Display.

Lemma rows_length (cameras : list CameraInfo) :
  forall n, List.length (rows n cameras) = List.length cameras.
Proof.
  induction cameras as [|c cs IH]; intros n; [reflexivity|].
  cbn. now rewrite IH.
Qed.

Lemma rows_nth (cameras : list CameraInfo) :
  forall n i c,
    nth_error cameras i = Some c ->
    nth_error (rows n cameras) i
    = Some ("  [" ++ str_int (n + Z.of_nat i) ++ "] " ++ str_int (index c)
            ++ ": " ++ str_opt (name c))%string.
Proof.
  induction cameras as [|c0 cs IH]; intros n i c H; [now destruct i|].
  destruct i as [|i]; cbn in H.
  - injection H as ->. cbn [rows nth_error Z.of_nat]. now rewrite Z.add_0_r.
  - cbn [rows nth_error]. rewrite (IH (n + 1) i c H).
    now replace (n + 1 + Z.of_nat i) with (n + Z.of_nat (S i)) by lia.
Qed.

(** X7. [devices] exits with status 1, after two lines, exactly when no
    camera is found, which is when [start] fails for every selector with
    the same message; otherwise it exits with 0 after a heading and one
    row per camera, in the order of the catalog, each with its position
    from 0, its device id and its name. *)
Theorem devices_listing (catalog : list CameraInfo) :
  (catalog = [] ->
   devices catalog
   = (["Scanning for available cameras..."; "No cameras found."]%string, 1))
  /\ (catalog <> [] ->
      snd (devices catalog) = 0
      /\ List.length (fst (devices catalog)) = (2 + List.length catalog)%nat
      /\ forall i c,
          nth_error catalog i = Some c ->
          nth_error (fst (devices catalog)) (2 + i)
          = Some ("  [" ++ str_int (Z.of_nat i) ++ "] " ++ str_int (index c)
                  ++ ": " ++ str_opt (name c))%string)
  /\ (snd (devices catalog) = 1
      <-> forall selector,
          resolve_device selector catalog
          = Raise (ClickException msg_no_cameras)).
Proof.
  split; [now intros -> | split].
  - intros Hne. destruct catalog as [|c0 rest]; [now elim Hne|].
    split; [reflexivity | split].
    + cbn [devices fst]. rewrite length_app, rows_length. reflexivity.
    + intros i c H. cbn [devices fst app Nat.add nth_error].
      now rewrite (rows_nth _ 0 i c H).
  - destruct catalog as [|c0 rest].
    + split; [now intros _ selector | reflexivity].
    + split; [discriminate|]. intros H. specialize (H ""%string).
      unfold resolve_device in H. change (int "") with (@None Z) in H.
      destruct (find (name_matches "") (c0 :: rest)); discriminate H.
Qed.

Lemma devices_listing_witness :
  nth_error (fst (devices Scenario.catalog)) 3
  = Some "  [1] 55: FaceTime HD"%string
  /\ snd (devices Scenario.catalog) = 0
  /\ snd (devices []) = 1.
Proof.
  destruct (devices_listing Scenario.catalog) as [_ [Listed _]].
  destruct (Listed ltac:(discriminate)) as [Status [_ Rows]].
  split; [|split; [exact Status|]].
  - exact (Rows 1%nat (mkCamera 55 (Some "FaceTime HD"%string)) eq_refl).
  - destruct (devices_listing []) as [Empty _].
    now rewrite (Empty eq_refl).
Defined.

Lemma format_02d_fixed (n : Z) :
  0 <= n <= 99 -> format_02d n = fixed_width 2 n.
Proof.
  intros Hn. unfold format_02d.
  destruct (Z.ltb_spec n 0); [lia|]. unfold str_nat.
  apply zfill_dec_digits; [split; [lia | now apply str_nat_fuel] | | lia].
  change (10 ^ Z.of_nat 2) with 100. lia.
Qed.

(** X18. The duration shown is hours, minutes and seconds of the time
    elapsed: minutes and seconds always lie in 0..59 and the three add up
    to the seconds elapsed; below a hundred hours the text is exactly two
    digits for each, eight characters in all. *)
Theorem duration_fields (total : Z) :
  let hours := total / 3600 in
  let minutes := total mod 3600 / 60 in
  let seconds := total mod 3600 mod 60 in
  duration_str total
  = (format_02d hours ++ ":" ++ format_02d minutes ++ ":"
     ++ format_02d seconds)%string
  /\ 0 <= minutes < 60
  /\ 0 <= seconds < 60
  /\ total = 3600 * hours + 60 * minutes + seconds
  /\ (0 <= total < 360000 ->
      duration_str total
      = (fixed_width 2 hours ++ ":" ++ fixed_width 2 minutes ++ ":"
         ++ fixed_width 2 seconds)%string
      /\ String.length (duration_str total) = 8%nat).
Proof.
  intros hours minutes seconds.
  pose proof (Z.mod_pos_bound total 3600 ltac:(lia)) as Hr.
  pose proof (Z.mod_pos_bound (total mod 3600) 60 ltac:(lia)) as Hs.
  pose proof (Z.div_mod total 3600 ltac:(lia)) as Dt.
  pose proof (Z.div_mod (total mod 3600) 60 ltac:(lia)) as Dr.
  assert (Hm : 0 <= minutes < 60).
  { subst minutes. split; [apply Z.div_pos | apply Z.div_lt_upper_bound]; lia. }
  split; [reflexivity|]. split; [exact Hm|]. split; [exact Hs|].
  split; [subst hours minutes seconds; lia|].
  intros Ht.
  assert (Hh : 0 <= hours <= 99).
  { subst hours. split; [apply Z.div_pos; lia|].
    apply Z.lt_succ_r, Z.div_lt_upper_bound; lia. }
  assert (E : duration_str total
              = (fixed_width 2 hours ++ ":" ++ fixed_width 2 minutes ++ ":"
                 ++ fixed_width 2 seconds)%string).
  { unfold duration_str, divmod. fold hours minutes seconds.
    now rewrite !format_02d_fixed by lia. }
  split; [exact E|]. rewrite E.
  rewrite !length_append, !fixed_width_length. reflexivity.
Qed.

Lemma duration_fields_witness :
  duration_str 3725 = "01:02:05"%string
  /\ String.length (duration_str 359999) = 8%nat.
Proof.
  split.
  - destruct (duration_fields 3725) as [_ [_ [_ [_ Short]]]].
    destruct (Short ltac:(lia)) as [Text _]. rewrite Text. reflexivity.
  - destruct (duration_fields 359999) as [_ [_ [_ [_ Short]]]].
    destruct (Short ltac:(lia)) as [_ Len]. exact Len.
Defined.

End ListingFacts.

(** ** Strings of any code points: facts *)

Module UnicodeFacts.
Import Unicode.

Lemma code_range (c : ascii) : 0 <= Py.code c < 256.
Proof.
  unfold Py.code. pose proof (N_ascii_bounded c). lia.
Qed.

Lemma code_chr (n : Z) : 0 <= n < 256 -> Py.code (Py.chr n) = n.
Proof.
  intros H. unfold Py.code, Py.chr.
  rewrite N_ascii_embedding by lia. lia.
Qed.

Lemma chr_code (c : ascii) : Py.chr (Py.code c) = c.
Proof.
  unfold Py.code, Py.chr. rewrite N2Z.id. apply ascii_N_embedding.
Qed.

Lemma code_eqb (a b : ascii) : (Py.code a =? Py.code b) = Ascii.eqb a b.
Proof.
  destruct (Ascii.eqb_spec a b) as [->|N].
  - apply Z.eqb_refl.
  - apply Z.eqb_neq. intros E. apply N.
    rewrite <- (chr_code a), <- (chr_code b). now rewrite E.
Qed.

Lemma codes_app (a b : string) : codes (a ++ b) = codes a ++ codes b.
Proof. induction a as [|x a IH]; simpl; [reflexivity | now rewrite IH]. Qed.

Lemma text_codes (s : string) : text (codes s) = s.
Proof.
  induction s as [|c s IH]; simpl; [reflexivity | now rewrite chr_code, IH].
Qed.



(** Where lower-casing works code point by code point, what stands
    around a code point plays no part. *)
Lemma do_lower_simple (u : tables) (s : str) :
  simple_case u s ->
  forall before, do_lower u before s = flat_map (to_lower_full u) s.
Proof.
  induction 1 as [|c s [Hc _] _ IH]; intros before; [reflexivity|].
  cbn [do_lower flat_map]. unfold lower_ucs4.
  apply Z.eqb_neq in Hc. now rewrite Hc, IH.
Qed.

Lemma lower_simple (u : tables) (s : str) :
  simple_case u s -> lower u s = flat_map (to_lower_full u) s.
Proof. intros H. now apply do_lower_simple. Qed.



End UnicodeFacts.

(** ** The Device Resolver on strings of any code points *)

Module UnicodeResolverFacts.
Import Unicode UnicodeResolver UnicodeData UnicodeFacts.






(** The other way round: the selector i finds the camera named U+0130,
    in which no substring is an i up to case; lowered, the name is an i
    and a combining dot. *)
Lemma dotted_capital_found :
  resolve_device ucd (codes "i") [UnicodeScenario.dotted_i] = Return 3
  /\ lower ucd [304] = [105; 775]
  /\ ~ matches_by_name ucd (codes "i") UnicodeScenario.dotted_i.
Proof.
  split; [reflexivity|]. split; [reflexivity|].
  intros [n [[= <-] [_ [a [m [b [E Hm]]]]]]].
  unfold same_ignoring_case in Hm.
  destruct a as [|x a]; cbn in E.
  - destruct m as [|y m]; [discriminate Hm|].
    injection E as <- E. destruct m; [discriminate Hm | discriminate E].
  - injection E as _ E. destruct a; [|discriminate E].
    destruct m; [discriminate Hm | discriminate E].
Qed.

End UnicodeResolverFacts.

(** ** The code points below 256

    On strings of code points below 256 the functions of [Unicode] are
    those of [Py], and [resolve_device] there is [Resolver.resolve_device],
    for every database that has the rows of these code points. *)

Module Latin1Facts.
Import Unicode UnicodeResolver UnicodeData UnicodeFacts.

(** The database has these rows. *)
Lemma ucd_latin1 : latin1_rows ucd.
Proof.
  assert (A : Forall (fun c =>
                to_lower_full ucd c
                = [if ((65 <=? c) && (c <=? 90))
                      || ((192 <=? c) && (c <=? 222) && negb (c =? 215))
                   then c + 32 else c]
                /\ is_whitespace ucd c
                   = (((9 <=? c) && (c <=? 13)) || ((28 <=? c) && (c <=? 32))
                      || (c =? 133) || (c =? 160))
                /\ to_decimal_digit ucd c
                   = (if (48 <=? c) && (c <=? 57) then Some (c - 48) else None))
              (map Z.of_nat (seq 0 256))).
  { apply Forall_forall. intros c Hc.
    apply in_map_iff in Hc. destruct Hc as [n [<- Hn]].
    apply in_seq in Hn.
    do 256 (destruct n as [|n]; [vm_compute; repeat split|]).
    lia. }
  intros c Hc. rewrite Forall_forall in A. apply A.
  apply in_map_iff. exists (Z.to_nat c). split; [lia|]. apply in_seq. lia.
Qed.

Lemma latin1_simple (u : tables) (s : string) :
  latin1_rows u -> simple_case u (codes s).
Proof.
  intros L. induction s as [|c s IH]; constructor; [|exact IH].
  pose proof (code_range c) as R. split; [lia|].
  destruct (L _ R) as [-> _]. now eexists.
Qed.

(** [Py.lower] is [str.lower] on these strings. *)
Lemma lower_codes (u : tables) (s : string) :
  latin1_rows u -> lower u (codes s) = codes (Py.lower s).
Proof.
  intros L. rewrite (lower_simple u _ (latin1_simple u s L)).
  induction s as [|c s IH]; [reflexivity|].
  cbn [codes flat_map Py.lower]. rewrite IH.
  pose proof (code_range c) as R. destruct (L _ R) as [-> _].
  unfold Py.lower_char.
  destruct (((65 <=? Py.code c) && (Py.code c <=? 90))
            || ((192 <=? Py.code c) && (Py.code c <=? 222)
                && negb (Py.code c =? 215)))%bool eqn:E; [|reflexivity].
  rewrite code_chr; [reflexivity|].
  apply orb_true_iff in E. rewrite !andb_true_iff, !Z.leb_le in E. lia.
Qed.

Lemma startswith_codes (p s : string) :
  startswith (codes p) (codes s) = Py.startswith p s.
Proof.
  revert s; induction p as [|a p IH]; intros [|b s]; try reflexivity.
  cbn. now rewrite code_eqb, IH.
Qed.

Lemma str_in_codes (needle hay : string) :
  str_in (codes needle) (codes hay) = Py.str_in needle hay.
Proof.
  induction hay as [|c hay IH].
  - cbn [str_in Py.str_in codes]. now rewrite <- startswith_codes.
  - change (str_in (codes needle) (codes (String c hay)))
      with (startswith (codes needle) (codes (String c hay))
            || str_in (codes needle) (codes hay))%bool.
    now rewrite startswith_codes, IH.
Qed.

(** *** [int] *)

(** A code point from 127 on is no digit, underscore or sign, and
    a space only if it is NEL or the no-break space. *)
Lemma high_char (c : ascii) :
  127 <= Py.code c ->
  Py.is_digit c = false
  /\ Ascii.eqb c "_" = false
  /\ Ascii.eqb c "-" = false
  /\ Ascii.eqb c "+" = false
  /\ Py.is_space c = ((Py.code c =? 133) || (Py.code c =? 160))%bool.
Proof.
  intros H.
  assert (N : forall d, Py.code d < 127 -> Ascii.eqb c d = false).
  { intros d Hd. rewrite <- code_eqb. apply Z.eqb_neq. lia. }
  split; [|split; [|split; [|split]]].
  - unfold Py.is_digit. apply andb_false_iff. right. apply Z.leb_gt. lia.
  - apply N. reflexivity.
  - apply N. reflexivity.
  - apply N. reflexivity.
  - unfold Py.is_space.
    replace (Py.code c <=? 13) with false by (symmetry; apply Z.leb_gt; lia).
    replace (Py.code c =? 32) with false by (symmetry; apply Z.eqb_neq; lia).
    now rewrite andb_false_r.
Qed.

(** The transformation, one code point at a time. *)
Lemma transform_cons (u : tables) (c : ascii) (s : string) :
  latin1_rows u ->
  transform u (codes (String c s))
  = if Py.code c <? 127 then String c (transform u (codes s))
    else if (Py.code c =? 133) || (Py.code c =? 160)
         then String " " (transform u (codes s))
         else String "?" EmptyString.
Proof.
  intros L. cbn [codes transform]. rewrite chr_code.
  destruct (Py.code c <? 127) eqn:E; [reflexivity|].
  apply Z.ltb_ge in E. pose proof (code_range c) as R.
  destruct (L _ R) as [_ [W D]].
  unfold is_space. rewrite W, D.
  replace ((48 <=? Py.code c) && (Py.code c <=? 57))%bool with false
    by (symmetry; apply andb_false_iff; right; apply Z.leb_gt; lia).
  replace (Py.code c <=? 13) with false by (symmetry; apply Z.leb_gt; lia).
  replace (Py.code c <=? 32) with false by (symmetry; apply Z.leb_gt; lia).
  rewrite !andb_false_r. cbn [orb].
  destruct (Py.code c <? 128) eqn:E'.
  - apply Z.ltb_lt in E'.
    replace (Py.code c =? 133) with false by (symmetry; apply Z.eqb_neq; lia).
    replace (Py.code c =? 160) with false by (symmetry; apply Z.eqb_neq; lia).
    reflexivity.
  - now destruct ((Py.code c =? 133) || (Py.code c =? 160))%bool.
Qed.

(** Go through the three cases of a code point. *)
Ltac by_code u c s L :=
  let E := fresh "E" in let S := fresh "S" in
  rewrite (transform_cons u c s L);
  destruct (Py.code c <? 127) eqn:E;
  [ | apply Z.ltb_ge in E;
      destruct (high_char c E) as [?D [?U [?M [?P ?W]]]];
      destruct ((Py.code c =? 133) || (Py.code c =? 160))%bool eqn:S ].

Lemma transform_empty (u : tables) (s : string) :
  latin1_rows u -> transform u (codes s) = EmptyString -> s = EmptyString.
Proof.
  intros L. destruct s as [|c s]; [reflexivity|].
  by_code u c s L; discriminate.
Qed.

Lemma lstrip_transform (u : tables) (s : string) :
  latin1_rows u ->
  Py.lstrip (transform u (codes s)) = transform u (codes (Py.lstrip s)).
Proof.
  intros L. induction s as [|c s IH]; [reflexivity|].
  cbn [Py.lstrip]. by_code u c s L.
  - cbn [Py.lstrip]. destruct (Py.is_space c); [exact IH|].
    now rewrite (transform_cons u c s L), E.
  - rewrite W. cbn [Py.lstrip]. exact IH.
  - rewrite W. rewrite (transform_cons u c s L).
    replace (Py.code c <? 127) with false by (symmetry; apply Z.ltb_ge; lia).
    now rewrite S.
Qed.

Lemma rstrip_transform (u : tables) (s : string) :
  latin1_rows u ->
  Py.rstrip (transform u (codes s)) = transform u (codes (Py.rstrip s)).
Proof.
  intros L. induction s as [|c s IH]; [reflexivity|].
  assert (T : forall r, r <> EmptyString ->
              transform u (codes r) <> EmptyString).
  { intros r Hr Ht. now apply Hr, (transform_empty u). }
  cbn [Py.rstrip]. by_code u c s L.
  - cbn [Py.rstrip]. rewrite IH.
    destruct (Py.rstrip s) as [|x r] eqn:Rs.
    + cbn [codes transform]. destruct (Py.is_space c); [reflexivity|].
      now rewrite (transform_cons u c "" L), E.
    + rewrite (transform_cons u c (String x r) L), E.
      destruct (transform u (codes (String x r))) eqn:Tr; [|reflexivity].
      now elim (T (String x r)).
  - rewrite W. cbn [Py.rstrip]. rewrite IH.
    destruct (Py.rstrip s) as [|x r] eqn:Rs; [reflexivity|].
    rewrite (transform_cons u c (String x r) L).
    replace (Py.code c <? 127) with false by (symmetry; apply Z.ltb_ge; lia).
    rewrite S.
    destruct (transform u (codes (String x r))) eqn:Tr; [|reflexivity].
    now elim (T (String x r)).
  - rewrite W.
    assert (Q : forall r, transform u (codes (String c r))
                          = String "?" EmptyString).
    { intros r. rewrite (transform_cons u c r L).
      replace (Py.code c <? 127) with false by (symmetry; apply Z.ltb_ge; lia).
      now rewrite S. }
    destruct (Py.rstrip s); now rewrite Q.
Qed.

Lemma parse_digits_transform (u : tables) (s : string) :
  latin1_rows u ->
  forall prev acc count,
    Py.parse_digits (transform u (codes s)) prev acc count
    = Py.parse_digits s prev acc count.
Proof.
  intros L. induction s as [|c s IH]; intros prev acc count; [reflexivity|].
  by_code u c s L.
  - cbn [Py.parse_digits]. rewrite !IH. reflexivity.
  - cbn [Py.parse_digits]. rewrite D, U. reflexivity.
  - cbn [Py.parse_digits]. rewrite D, U. reflexivity.
Qed.

(** The sign that [int] reads. *)
Lemma sign_cases (c : ascii) (r : string) :
  match String c r with
  | String "-" r' => (true, r')
  | String "+" r' => (false, r')
  | _ => (false, String c r)
  end
  = if Ascii.eqb c "-" then (true, r)
    else if Ascii.eqb c "+" then (false, r)
    else (false, String c r).
Proof. destruct c as [[] [] [] [] [] [] [] []]; reflexivity. Qed.

Lemma int_sign (s : string) :
  Py.int s
  = let t := Py.rstrip (Py.lstrip s) in
    let '(negative, body) :=
      match t with
      | EmptyString => (false, t)
      | String c r =>
          if Ascii.eqb c "-" then (true, r)
          else if Ascii.eqb c "+" then (false, r)
          else (false, t)
      end in
    match Py.parse_digits body false 0 0 with
    | Some (v, count) =>
        if count <=? Py.int_max_str_digits
        then Some (if negative then - v else v)
        else None
    | None => None
    end.
Proof.
  unfold Py.int. cbv zeta.
  destruct (Py.rstrip (Py.lstrip s)) as [|c r]; [reflexivity|].
  now rewrite sign_cases.
Qed.

Lemma int_transform (u : tables) (s : string) :
  latin1_rows u -> Py.int (transform u (codes s)) = Py.int s.
Proof.
  intros L. rewrite !int_sign. cbv zeta.
  rewrite (lstrip_transform u s L), (rstrip_transform u _ L).
  destruct (Py.rstrip (Py.lstrip s)) as [|c r]; [reflexivity|].
  by_code u c r L.
  - destruct (Ascii.eqb c "-"); [now rewrite parse_digits_transform|].
    destruct (Ascii.eqb c "+"); [now rewrite parse_digits_transform|].
    rewrite <- (parse_digits_transform u (String c r) L).
    now rewrite (transform_cons u c r L), E.
  - rewrite M, P. cbn [Ascii.eqb Bool.eqb Py.parse_digits].
    now rewrite D, U.
  - rewrite M, P. cbn [Ascii.eqb Bool.eqb Py.parse_digits].
    now rewrite D, U.
Qed.

(** [Py.int] is [int] on these strings. *)
Lemma int_codes (u : tables) (s : string) :
  latin1_rows u -> int u (codes s) = Py.int s.
Proof.
  intros L. unfold int. destruct (is_ascii (codes s)).
  - now rewrite text_codes.
  - now apply int_transform.
Qed.

(** *** [resolve_device] *)

Lemma name_matches_codes (u : tables) (selector : string)
  (camera : Resolver.CameraInfo) :
  latin1_rows u ->
  name_matches u (codes selector) (widen camera)
  = Resolver.name_matches selector camera.
Proof.
  intros L. unfold name_matches, Resolver.name_matches, widen. cbn [name].
  destruct (Resolver.name camera) as [n|]; [|reflexivity]. cbn [option_map].
  rewrite !lower_codes, str_in_codes by exact L.
  now destruct n.
Qed.

Lemma find_widen (f : CameraInfo -> bool) (g : Resolver.CameraInfo -> bool)
  (l : list Resolver.CameraInfo) :
  (forall c, f (widen c) = g c) ->
  find f (map widen l) = option_map widen (find g l).
Proof.
  intros H. induction l as [|a l IH]; [reflexivity|].
  cbn. rewrite H. now destruct (g a).
Qed.

(** X19. On a selector and a catalog of code points below 256,
    [resolve_device] on strings of any code points does what
    [Resolver.resolve_device] does: the same device id is returned, or
    the same error raised with the same message. *)
Theorem resolve_device_codes (u : tables) (selector : string)
  (catalog : list Resolver.CameraInfo) :
  latin1_rows u ->
  resolve_device u (codes selector) (map widen catalog)
  = widen_result (Resolver.resolve_device selector catalog).
Proof.
  intros L. unfold resolve_device, Resolver.resolve_device.
  destruct catalog as [|c0 rest]; [reflexivity|].
  change (map widen (c0 :: rest)) with (widen c0 :: map widen rest).
  rewrite (int_codes u selector L).
  change (widen c0 :: map widen rest) with (map widen (c0 :: rest)).
  destruct (Py.int selector) as [n|].
  - rewrite (find_widen _ (fun camera => Resolver.index camera =? n))
      by reflexivity.
    destruct (find (fun camera => Resolver.index camera =? n) (c0 :: rest))
      as [c|]; [reflexivity|]. cbn [option_map].
    rewrite length_map, nth_error_map.
    destruct ((0 <=? n) && (n <? Z.of_nat (List.length (c0 :: rest))))%bool.
    + now destruct (nth_error (c0 :: rest) (Z.to_nat n)).
    + cbn [widen_result]. unfold msg_device_not_found,
        Resolver.msg_device_not_found. now rewrite !codes_app.
  - rewrite (find_widen _ (Resolver.name_matches selector))
      by (intros c; now apply name_matches_codes).
    destruct (find (Resolver.name_matches selector) (c0 :: rest)) as [c|];
      [reflexivity|].
    cbn [option_map widen_result]. unfold msg_no_match, Resolver.msg_no_match.
    now rewrite !codes_app.
Qed.

Lemma resolve_device_codes_witness :
  resolve_device ucd (codes "facetime") UnicodeScenario.catalog = Return 55
  /\ resolve_device ucd (codes "7") UnicodeScenario.catalog
     = Raise (ClickException (msg_device_not_found (codes "7"))).
Proof.
  split.
  - exact (resolve_device_codes ucd "facetime" Scenario.catalog ucd_latin1).
  - exact (resolve_device_codes ucd "7" Scenario.catalog ucd_latin1).
Defined.

(** X6. For a selector of code points below 256, the case of its
    letters plays no part in what is selected, whatever the names of the
    cameras: the selector and its lower-case form select the same
    device, or both fail. *)
Theorem latin1_selector_case_ignored (u : tables) (selector : string)
  (catalog : list CameraInfo) (d : Z) :
  latin1_rows u ->
  resolve_device u (lower u (codes selector)) catalog = Return d
  <-> resolve_device u (codes selector) catalog = Return d.
Proof.
  intros L. rewrite (lower_codes u selector L).
  unfold resolve_device. destruct catalog as [|c0 rest]; [reflexivity|].
  rewrite !int_codes, ResolverMore.int_lower by exact L.
  destruct (Py.int selector) as [n|].
  - destruct (find (fun camera => index camera =? n) (c0 :: rest));
      [reflexivity|].
    destruct ((0 <=? n) && (n <? Z.of_nat (List.length (c0 :: rest))))%bool;
      [reflexivity|].
    split; discriminate.
  - assert (F : forall l, find (name_matches u (codes (Py.lower selector))) l
                          = find (name_matches u (codes selector)) l).
    { induction l as [|a l IH]; [reflexivity|]. cbn.
      unfold name_matches at 1 3.
      rewrite !lower_codes, ResolverMore.lower_lower by exact L.
      now rewrite IH. }
    rewrite F.
    destruct (find (name_matches u (codes selector)) (c0 :: rest));
      [reflexivity|].
    split; discriminate.
Qed.

Lemma latin1_selector_case_ignored_witness :
  resolve_device ucd (lower ucd (codes "ANKER")) UnicodeScenario.catalog
    = Return 1200
  <-> resolve_device ucd (codes "ANKER") UnicodeScenario.catalog = Return 1200.
Proof.
  apply (latin1_selector_case_ignored ucd "ANKER" UnicodeScenario.catalog 1200).
  exact ucd_latin1.
Defined.

End Latin1Facts.

(** ** Writes that fail *)

Module WriteFacts.
Import Py Text Resolver Session SessionFacts NameFacts.
Import Observe.

(** A pass in which the frame is read and the write raises ends there:
    the exception leaves the body and the frame is not counted. *)
Lemma body_write_raises (interval : pyfloat) (out : string) (p : pass)
  (v : vars) (e : exn) :
  read p = Return true -> imwrite p = Raise e ->
  fst (fst (body interval out p v)) = Exc e
  /\ frame_count (snd (fst (body interval out p v))) = frame_count v
  /\ count is_imwrite (snd (body interval out p v)) = 1%nat.
Proof.
  intros Hr Hw. revert Hr Hw. open_body p interval; intros Hr Hw;
    try discriminate; injection Hw as <-; repeat split.
Qed.

Lemma count_passes_calls (interval : pyfloat) (out : string) (oks : list bool) :
  forall n,
    count is_imwrite (passes_calls interval out n oks) = List.length oks
    /\ count is_release (passes_calls interval out n oks) = 0%nat
    /\ count is_count_report (passes_calls interval out n oks) = 0%nat.
Proof.
  induction oks as [|ok oks IH]; intros n; [now repeat split|].
  cbn [passes_calls]. rewrite !count_app.
  destruct (IH (n + 1)) as [-> [-> ->]]. now repeat split.
Qed.

(** C10, as the program has it. What [cv2.imwrite] returns is not
    looked at: a run in which some writes return failure ends in the
    same way, with the same termination reason, exit status and count,
    and the same calls (but for what those writes returned) as the run
    in which they return success; each frame read is handed to the
    writer and the count is the number of writes that returned. A write
    that fails by raising is not caught: after passes that went well it
    ends the session with that exception, which is none of the
    termination reasons, and with the exit status of an exception; the
    frame of that pass is not counted, the handle is released once and
    the count of the frames before is reported. *)
Theorem write_failure_ends_only_by_raising (w : world) (device : string)
  (interval : pyfloat) (output_dir : option string) :
  let r := run w device interval output_dir in
  let r' := run (writes_succeed w) device interval output_dir in
  ended r = ended r'
  /\ terminationReason r = terminationReason r'
  /\ exit_status r = exit_status r'
  /\ frames r = frames r'
  /\ map forget_written (calls r) = calls r'
  /\ count is_read_ok (calls r) = count is_imwrite (calls r)
  /\ frames r = Z.of_nat (count is_saved (calls r))
  /\ (forall device_index good oks bad rest e,
        resolve_device device (cameras w) = Return device_index ->
        is_opened w = true ->
        sigint_before_loop w = false ->
        time_sleep interval = Return tt ->
        passes w = good ++ bad :: rest ->
        Forall2 goes_well good oks ->
        read bad = Return true ->
        imwrite bad = Raise e ->
        ended r = Exc e
        /\ terminationReason r = None
        /\ exit_status r = Some (exit_code_of e)
        /\ frames r = Z.of_nat (List.length good)
        /\ written (calls r)
           = map frame_name (numbers 0 (S (List.length good)))
        /\ count is_release (calls r) = 1%nat
        /\ filter is_count_report (calls r)
           = [Echo false (RecordingStopped (Z.of_nat (List.length good)))]).
Proof.
  intros r r'.
  destruct (returned_write_ignored w device interval output_dir)
    as [E [T [X [F [C [Rd Sv]]]]]].
  split; [exact E|]. split; [exact T|]. split; [exact X|].
  split; [exact F|]. split; [exact C|]. split; [exact Rd|].
  split; [exact Sv|].
  intros device_index good oks bad rest e Hres Hopen Hsig Hs Hp Hgood Hr Hw.
  set (out := output_path_of w output_dir).
  set (k := Z.of_nat (List.length good)).
  destruct (body_write_raises interval out bad (mkVars false (0 + k)) e Hr Hw)
    as [BE [BF BI]].
  destruct (body interval out bad (mkVars false (0 + k)))
    as [[rb vb] tb] eqn:B.
  cbn [fst snd frame_count] in BE, BF, BI. subst rb.
  destruct (body_calls _ _ _ _ _ _ _ B) as [BRel [_ [BRep _]]].
  assert (HW : while_loop interval out (passes w)
                 (mkVars (sigint_before_loop w) 0)
               = (Exc e, vb, passes_calls interval out 0 oks ++ tb)).
  { rewrite Hsig, Hp, (loop_goes_well _ _ _ _ _ _ Hgood Hs).
    rewrite loop_step by reflexivity. fold k. now rewrite B. }
  pose proof (run_recording w device interval output_dir device_index
                Hres Hopen _ _ _ HW) as R. cbv zeta in R. fold out in R.
  destruct (count_preamble w device_index interval out)
    as [PRel [_ [PRep [PWr _]]]].
  destruct (count_passes_calls interval out oks 0) as [GWr [GRel GRep]].
  assert (L : List.length oks = List.length good)
    by (symmetry; exact (Forall2_length Hgood)).
  pose proof (run_names w device interval output_dir) as N.
  fold r in N. subst r. rewrite R in N |- *.
  cbn [ended frames calls exit_status] in N |- *.
  unfold terminationReason. cbn [ended]. rewrite BF in N |- *.
  split; [reflexivity|]. split; [reflexivity|]. split; [reflexivity|].
  split; [unfold k; lia|]. split; [|split].
  - rewrite N. f_equal. f_equal.
    rewrite !count_app, PWr, GWr, BI, (count_click_shows is_imwrite)
      by reflexivity.
    cbn. lia.
  - rewrite !count_app, PRel, GRel, BRel, (count_click_shows is_release)
      by reflexivity.
    reflexivity.
  - rewrite !filter_app.
    assert (Z0 : forall l, count is_count_report l = 0%nat ->
                           filter is_count_report l = []).
    { intros l. unfold count. now destruct (filter is_count_report l). }
    rewrite (Z0 _ PRep), (Z0 _ GRep), (Z0 _ BRep),
      (Z0 _ (count_click_shows is_count_report e ltac:(reflexivity))).
    cbn. now replace (0 + k) with k by lia.
Qed.

Lemma write_failure_ends_only_by_raising_witness :
  ended (run (Scenario.working [Scenario.write_fails; Scenario.write_raises;
                                Scenario.fine])
           "0" (Finite 0) (Some "out"%string))
  = Exc (OtherError "cv2.error")
  /\ frames (run (Scenario.working [Scenario.write_fails;
                                    Scenario.write_raises; Scenario.fine])
               "0" (Finite 0) (Some "out"%string)) = 1
  /\ exit_status (run (Scenario.working [Scenario.write_fails;
                                         Scenario.write_raises; Scenario.fine])
                    "0" (Finite 0) (Some "out"%string)) = Some 1.
Proof.
  destruct (write_failure_ends_only_by_raising
              (Scenario.working [Scenario.write_fails; Scenario.write_raises;
                                 Scenario.fine])
              "0" (Finite 0) (Some "out"%string))
    as [_ [_ [_ [_ [_ [_ [_ Raised]]]]]]].
  destruct (Raised 1200 [Scenario.write_fails] [false] Scenario.write_raises
              [Scenario.fine] (OtherError "cv2.error")
              eq_refl eq_refl eq_refl eq_refl eq_refl)
    as [E [_ [X [F _]]]]; try reflexivity.
  - repeat constructor.
  - split; [exact E | split; [exact F | exact X]].
Defined.

(** C10 as stated fails. A write that fails by raising ends the
    session: nothing is read after it, the command ends with that
    exception and exit status 1, where the same world with a write that
    returns ends on the failed read that follows, with exit status
    0. *)
Lemma raising_write_ends_session :
  calls (run (Scenario.working [Scenario.write_raises; Scenario.read_fails])
           "0" (Finite 1) (Some "out"%string))
  = [Mkdir "out"; SetSigint; VideoCapture 1200;
     Echo false (RecordingFrom 1200 "out");
     Echo false (CaptureInterval (Finite 1));
     Echo false PressCtrlC; LiveStart (0, None);
     Read (Return true);
     Imwrite "out" "frame_000000.jpg" (Raise (OtherError "cv2.error"));
     Release; Echo false (RecordingStopped 0); LiveStop]
  /\ ended (run (Scenario.working [Scenario.write_raises; Scenario.read_fails])
              "0" (Finite 1) (Some "out"%string))
     = Exc (OtherError "cv2.error")
  /\ terminationReason
       (run (Scenario.working [Scenario.write_raises; Scenario.read_fails])
          "0" (Finite 1) (Some "out"%string)) = None
  /\ exit_status
       (run (Scenario.working [Scenario.write_raises; Scenario.read_fails])
          "0" (Finite 1) (Some "out"%string)) = Some 1
  /\ same_but_writes
       (Scenario.working [Scenario.write_raises; Scenario.read_fails])
       (Scenario.working [Scenario.fine; Scenario.read_fails])
  /\ terminationReason
       (run (Scenario.working [Scenario.fine; Scenario.read_fails])
          "0" (Finite 1) (Some "out"%string)) = Some CaptureFailure
  /\ exit_status
       (run (Scenario.working [Scenario.fine; Scenario.read_fails])
          "0" (Finite 1) (Some "out"%string)) = Some 0
  /\ ~ (forall w w' device interval output_dir,
          same_but_writes w w' ->
          terminationReason (run w device interval output_dir)
          = terminationReason (run w' device interval output_dir)
          /\ exit_status (run w device interval output_dir)
             = exit_status (run w' device interval output_dir)).
Proof.
  assert (S : same_but_writes
                (Scenario.working [Scenario.write_raises; Scenario.read_fails])
                (Scenario.working [Scenario.fine; Scenario.read_fails])).
  { unfold same_but_writes. cbn.
    split; [reflexivity|]. split; [reflexivity|]. split; [reflexivity|].
    split; [reflexivity|]. repeat constructor. }
  split; [reflexivity|]. split; [reflexivity|]. split; [reflexivity|].
  split; [reflexivity|]. split; [exact S|]. split; [reflexivity|].
  split; [reflexivity|].
  intros H.
  destruct (H _ _ "0"%string (Finite 1) (Some "out"%string) S) as [T _].
  discriminate T.
Qed.

End WriteFacts.
